(** * Playlist indexers (Spotify and Apple Music): a shallow embedding

    The two Python modules [spotify_playlist_indexer.py] and
    [apple_music_playlist_indexer.py] are embedded function by function.
    Python strings are sequences of Unicode code points, JSON values are an
    inductive type, exceptions are an error result, and the file system
    and the network are an explicit world that every effectful function
    threads through. *)

From Stdlib Require Import ZArith NArith QArith.QArith_base Strings.String Strings.Ascii.
From Stdlib Require Import Numbers.DecimalString Numbers.DecimalFacts Numbers.DecimalN.
From Stdlib Require Import Init.Byte Sorting.Sorted.
From stdpp Require Import base option list gmap.

Set Warnings "-register-all".
Local Open Scope Z_scope.

(** ** Python strings *)

Module PyStr.

(** A Python [str] is a sequence of code points: a [list N]. *)

(** String literals of the source, written as Rocq strings. *)
Definition lit (x : string) : list N := N_of_ascii <$> list_ascii_of_string x.

Definition ch (a : ascii) : N := N_of_ascii a.

Arguments lit : simpl never.
Arguments ch : simpl never.

(** [s.startswith(p)] *)
Fixpoint starts_with (p s : list N) : bool :=
  match p, s with
  | [], _ => true
  | _ :: _, [] => false
  | a :: p', b :: s' => (a =? b)%N && starts_with p' s'
  end.

(** [s.find(sub)]: the index of the first occurrence, if any. *)
Fixpoint find (sub s : list N) : option nat :=
  if starts_with sub s then Some 0%nat
  else match s with
       | [] => None
       | _ :: s' => S <$> find sub s'
       end.

(** [sub in s] *)
Definition contains (sub s : list N) : bool :=
  match find sub s with Some _ => true | None => false end.

(** [s.split(sep)] for a non-empty separator: the pieces between the
    occurrences of [sep], found from the left and never overlapping.
    Every round consumes at least one character, so [length s] rounds
    are enough. *)
Fixpoint split_go (fuel : nat) (sep s : list N) : list (list N) :=
  match fuel with
  | O => [s]
  | S fuel' =>
      match find sep s with
      | None => [s]
      | Some i => take i s :: split_go fuel' sep (drop (i + length sep) s)
      end
  end.

Definition split (sep s : list N) : list (list N) := split_go (length s) sep s.

(** [l[-1]] and [l[0]] on the result of a split, which is never empty. *)
Definition last_of (l : list (list N)) : list N := default [] (last l).
Definition first_of (l : list (list N)) : list N := default [] (head l).

(** [new.join(pieces)] *)
Fixpoint join (new : list N) (pieces : list (list N)) : list N :=
  match pieces with
  | [] => []
  | [p] => p
  | p :: rest => p ++ new ++ join new rest
  end.

(** [s.replace(old, new)] for a non-empty [old]: every occurrence found by
    the same left-to-right scan as [split] is replaced. *)
Definition replace (old new s : list N) : list N := join new (split old s).

End PyStr.

Import PyStr.

(** ** Python values, exceptions and the runtime *)

Module Py.

(** A parsed JSON document, which is also the shape of every dictionary
    the indexers build.  A [JDict] is an association list read from the
    left; numbers are integers. *)
Inductive json : Type :=
| JNull
| JBool (b : bool)
| JNum (n : Z)
| JStr (s : list N)
| JList (l : list json)
| JDict (d : list (list N * json)).

(** The exceptions the indexers can let escape.  A
    [requests.exceptions.RequestException] never escapes the functions
    embedded here: each of them catches it where it is raised. *)
Inductive exn : Type :=
| AttributeError | TypeError | IndexError | KeyError | ValueError | OverflowError.

Inductive res (A : Type) : Type :=
| Ok (a : A)
| Raise (e : exn).
Arguments Ok {A} a.
Arguments Raise {A} e.

Definition res_bind {A B} (c : res A) (k : A -> res B) : res B :=
  match c with Ok a => k a | Raise e => Raise e end.

Notation "'let?' x ':=' c 'in' k" := (res_bind c (fun x => k))
  (at level 10, x name, c at level 100, k at level 200).

(** [bool(v)] *)
Definition truthy (v : json) : bool :=
  match v with
  | JNull => false
  | JBool b => b
  | JNum n => negb (n =? 0)
  | JStr s => match s with [] => false | _ => true end
  | JList l => match l with [] => false | _ => true end
  | JDict d => match d with [] => false | _ => true end
  end.

Fixpoint dict_lookup (k : list N) (d : list (list N * json)) : option json :=
  match d with
  | [] => None
  | (k', v) :: d' => if bool_decide (k' = k) then Some v else dict_lookup k d'
  end.

(** [v.get(k, dflt)]; only a dict has a [get]. *)
Definition py_get (v : json) (k : list N) (dflt : json) : res json :=
  match v with
  | JDict d => Ok (default dflt (dict_lookup k d))
  | _ => Raise AttributeError
  end.

(** [v[0]] *)
Definition py_index0 (v : json) : res json :=
  match v with
  | JList (x :: _) => Ok x
  | JList [] => Raise IndexError
  | JStr (c :: _) => Ok (JStr [c])
  | JStr [] => Raise IndexError
  | JDict _ => Raise KeyError
  | _ => Raise TypeError
  end.

(** The items a [for] loop or a comprehension draws from [v]. *)
Definition py_iter (v : json) : res (list json) :=
  match v with
  | JList l => Ok l
  | JStr s => Ok ((fun c => JStr [c]) <$> s)
  | JDict d => Ok ((fun kv => JStr kv.1) <$> d)
  | _ => Raise TypeError
  end.

(** [v == s] for a string literal [s]. *)
Definition is_str (v : json) (s : list N) : bool :=
  match v with JStr t => bool_decide (t = s) | _ => false end.

(** Values that can be put in a [set] or counted by [nunique]. *)
Definition hashable (v : json) : bool :=
  match v with JList _ | JDict _ => false | _ => true end.

(** [len(v)] *)
Definition py_len (v : json) : res nat :=
  match v with
  | JList l => Ok (length l)
  | JStr s => Ok (length s)
  | JDict d => Ok (length d)
  | _ => Raise TypeError
  end.

(** [sub in v] for a string [sub]. *)
Definition py_in (sub : list N) (v : json) : res bool :=
  match v with
  | JStr s => Ok (contains sub s)
  | JList l => Ok (existsb (fun x => is_str x sub) l)
  | JDict d => Ok (existsb (fun kv => bool_decide (kv.1 = sub)) d)
  | _ => Raise TypeError
  end.

(** [v.replace(old, new)]; only a string has a [replace]. *)
Definition py_replace (v : json) (old new : list N) : res json :=
  match v with
  | JStr s => Ok (JStr (replace old new s))
  | _ => Raise AttributeError
  end.

(** [a == b] on hashable values; [True == 1] and [False == 0]. *)
Definition py_eqb (a b : json) : bool :=
  match a, b with
  | JNull, JNull => true
  | JStr x, JStr y => bool_decide (x = y)
  | JNum x, JNum y => x =? y
  | JBool x, JBool y => Bool.eqb x y
  | JBool x, JNum y | JNum y, JBool x => (if x then 1 else 0) =? y
  | _, _ => false
  end.

(** The distinct values of a list, one representative each. *)
Fixpoint distinct (l : list json) : list json :=
  match l with
  | [] => []
  | x :: l' => if existsb (py_eqb x) l' then distinct l' else x :: distinct l'
  end.

(** [len(set(l))]: the elements of a set must be hashable. *)
Definition set_of (l : list json) : res (list json) :=
  if forallb hashable l then Ok (distinct l) else Raise TypeError.

(** Decimal digits of an integer, as [str(n)] prints them. *)
Definition digits (n : N) : list N := lit (NilZero.string_of_uint (N.to_uint n)).

Definition str_of_int (n : Z) : list N :=
  if n <? 0 then lit "-" ++ digits (Z.to_N (- n)) else digits (Z.to_N n).

(** [s.zfill(w)] on a digit string. *)
Definition zfill (w : nat) (s : list N) : list N :=
  List.repeat (ch "0") (w - length s) ++ s.

(** [format(n, '03d')]: zero padding to width three, the sign counted in
    the width. *)
Definition format_03d (n : Z) : list N :=
  if n <? 0 then lit "-" ++ zfill 2 (digits (Z.to_N (- n)))
  else zfill 3 (digits (Z.to_N n)).

(** ASCII part of [str.isalnum] and of [str.isspace]. *)
Definition ascii_isalnum (c : N) : bool :=
  ((48 <=? c) && (c <=? 57) || (65 <=? c) && (c <=? 90) || (97 <=? c) && (c <=? 122))%N.

Definition ascii_isspace (c : N) : bool :=
  ((9 <=? c) && (c <=? 13) || (28 <=? c) && (c <=? 32))%N.

(** ** The world: network and file system *)

Record request : Type := {
  req_url : list N;
  req_headers : list (list N * list N);
  req_params : list (list N * json)
}.

(** What a server sent back: the status, the raw body, and the body as
    [response.json()] reads it (servers that answer an API call with a body
    that is not JSON are outside the model). *)
Record response : Type := {
  status_code : Z;
  content : list byte;
  body_json : json
}.

(** [requests.get] either raises a [RequestException] (connection error,
    timeout, invalid URL) or returns a response. *)
Inductive net_reply : Type :=
| NetError
| Reply (r : response).

(** A cell of a data frame, and of the dictionaries that
    [df.to_dict('records')] makes of its rows: a value that pandas left as
    it was given, the float [float(n)] of an integer [n], or the float
    not-a-number, which [json.dump] writes as [NaN]. *)
Inductive value : Type :=
| Plain (v : json)
| Float (n : Z)
| NaN.

(** One row of [df.to_dict('records')]: the cells under the column names. *)
Definition record : Type := list (list N * value).

Fixpoint record_lookup (k : list N) (r : record) : option value :=
  match r with
  | [] => None
  | (k', v) :: r' => if bool_decide (k' = k) then Some v else record_lookup k r'
  end.

(** What an aggregate of a column yields: a numpy integer
    ([numpy.int64], [numpy.uint64]), a [numpy.float64] holding the
    integral value [x], or a plain Python value. *)
Inductive scalar : Type :=
| NpInt (n : Z)
| NpFloat (x : Z)
| PyValue (v : json).

(** The [final_data] of one run: the metadata, the records of the data
    frame and the summary. *)
Record snapshot (S : Type) : Type := {
  playlist_metadata : json;
  tracks : list record;
  summary : S
}.
Arguments playlist_metadata {S} _.
Arguments tracks {S} _.
Arguments summary {S} _.

End Py.

Import Py.

(** ** Snapshots, the world and the effect monad *)

Module SpotifyDoc.
(** The [summary] dictionary of a Spotify snapshot.  The two floats are
    kept as the exact rationals of which they are the rounding;
    [average_popularity] is [None] where pandas yields not-a-number. *)
Record summary : Type := {
  total_tracks : nat;
  total_duration_ms : Z;
  total_duration_hours : Q;
  unique_primary_artists : nat;
  unique_all_artists : nat;
  unique_albums : nat;
  average_popularity : option Q;
  explicit_tracks : Z;
  tracks_with_preview : nat;
  indexed_at : list N
}.
End SpotifyDoc.

Module AppleDoc.
(** The [summary] dictionary of an Apple Music snapshot.
    [total_duration_ms] is what [df['duration_ms'].sum()] returned, not
    converted; [genres] comes from a [set], so its order carries no
    meaning. *)
Record summary : Type := {
  total_tracks : nat;
  total_duration_ms : scalar;
  unique_artists : nat;
  unique_albums : nat;
  genres : list json;
  indexed_at : list N
}.
End AppleDoc.

Module Sys.

(** A file is an image, a complete snapshot, or what [json.dump] had
    written of an Apple Music snapshot when it raised: the metadata, the
    tracks and the first entry of the summary, cut off after the key
    "total_duration_ms". *)
Inductive file_data : Type :=
| Image (b : list byte)
| SpotifySnapshot (s : snapshot SpotifyDoc.summary)
| AppleSnapshot (s : snapshot AppleDoc.summary)
| Truncated (playlist_metadata : json) (tracks : list record) (total_tracks : nat).

(** The files on disk and the log of [requests.get] calls made so far. *)
Record World : Type := {
  files : gmap (list N) file_data;
  net_log : list request
}.

(** What the program does not decide: the Unicode tables behind
    [str.isalnum] and [str.isspace] above ASCII, [str()] of a list or
    dict, the servers (which may answer differently over time, hence the
    log argument) and the clock readings used for the summary and for the
    file name.

    The remaining fields are what is left open of pandas and numpy, see
    the module [Pandas]: whether a column of strings is held with the
    [str] dtype, whose missing values are all not-a-number
    ([infer_string], the default from pandas 3 on); the float sum of
    integers too large to be added exactly ([np_float_sum]); the
    aggregates of a column that is not held as numbers ([object_sum],
    [object_mean]), what [int(...)] and the division by 3600000 make of
    such a sum ([object_int], [object_hours]), and that division for an
    integer too large for a float ([object_hours] again); the cells and the
    number of distinct values of a column outside the cases the model
    decides ([odd_cell], [odd_nunique]); and whether building a
    frame that holds a very large integer raises ([frame_error]). *)
Record Env : Type := {
  uni_isalnum : N -> bool;
  uni_isspace : N -> bool;
  py_repr : json -> list N;
  net : list request -> request -> net_reply;
  now_iso : list N;
  now_stamp : list N;
  infer_string : bool;
  np_float_sum : list Z -> Z;
  object_sum : list (option json) -> res scalar;
  object_mean : list (option json) -> res (option Q);
  object_int : json -> res Z;
  object_hours : json -> res Q;
  odd_cell : list (option json) -> nat -> value;
  odd_nunique : list (option json) -> nat;
  frame_error : list json -> option exn
}.

Definition M (A : Type) : Type := World -> res A * World.

Definition ret {A} (a : A) : M A := fun w => (Ok a, w).

Definition bind {A B} (c : M A) (k : A -> M B) : M B :=
  fun w => match c w with
           | (Ok a, w') => k a w'
           | (Raise e, w') => (Raise e, w')
           end.

Definition lift {A} (r : res A) : M A := fun w => (r, w).

Notation "'let*' x ':=' c 'in' k" := (bind c (fun x => k))
  (at level 10, x name, c at level 100, k at level 200).

(** [requests.get(url, headers=..., params=...)]: [None] stands for a
    raised [RequestException].  A URL that is not a string is rejected
    before anything is sent. *)
Definition requests_get (env : Env) (url : json)
    (headers : list (list N * list N)) (params : list (list N * json))
    : M (option response) :=
  fun w =>
    match url with
    | JStr u =>
        let rq := {| req_url := u; req_headers := headers; req_params := params |} in
        let w' := {| files := files w; net_log := net_log w ++ [rq] |} in
        match net env (net_log w) rq with
        | NetError => (Ok None, w')
        | Reply r => (Ok (Some r), w')
        end
    | _ => (Ok None, w)
    end.

(** [response.raise_for_status()] raises on a 4xx or 5xx status. *)
Definition raises_for_status (r : response) : bool :=
  (400 <=? status_code r) && (status_code r <? 600).

(** [path.exists()] *)
Definition path_exists (p : list N) : M bool :=
  fun w => (Ok (bool_decide (is_Some (files w !! p))), w).

(** [open(path, 'w')] followed by the write. *)
Definition write_file (p : list N) (d : file_data) : M unit :=
  fun w => (Ok tt, {| files := <[p := d]> (files w); net_log := net_log w |}).

(** [dir / name] of [pathlib], for a relative [name]. *)
Definition path_join (dir name : list N) : list N := dir ++ lit "/" ++ name.

(** [str.isalnum], [str.isspace] and the regular expression class [\w]
    on one character. *)
Definition isalnum (env : Env) (c : N) : bool :=
  if (c <? 128)%N then ascii_isalnum c else uni_isalnum env c.

Definition isspace (env : Env) (c : N) : bool :=
  if (c <? 128)%N then ascii_isspace c else uni_isspace env c.

Definition isword (env : Env) (c : N) : bool :=
  isalnum env c || (c =? ch "_")%N.

(** [str(v)], as an f-string formats [v]. *)
Definition py_str (env : Env) (v : json) : list N :=
  match v with
  | JStr s => s
  | JNull => lit "None"
  | JBool true => lit "True"
  | JBool false => lit "False"
  | JNum n => str_of_int n
  | _ => py_repr env v
  end.

(** [d[k] = v] *)
Fixpoint dict_set (k : list N) (v : json) (d : list (list N * json)) : list (list N * json) :=
  match d with
  | [] => [(k, v)]
  | (k', v') :: d' => if bool_decide (k' = k) then (k', v) :: d' else (k', v') :: dict_set k v d'
  end.

Definition is_none (v : json) : bool :=
  match v with JNull => true | _ => false end.

End Sys.

Import Sys.

(** ** pandas

    The part of pandas and numpy the indexers use, on the data they give
    it: a list of dictionaries whose values are JSON values.  What is
    described is the behaviour of pandas 2 (and of pandas 3 where
    [infer_string] is set); wherever the outcome depends on more than the
    model tracks (the rounding of floats, the aggregates of columns that
    are not numbers, integers beyond the machine sizes), it is a field of
    the environment, so that every statement holds whatever pandas does
    there. *)

Module Pandas.

(** The frame that [pd.DataFrame(data)] builds of a list of dictionaries:
    one column per key, in order of first appearance, and one row per
    dictionary; an empty list gives a frame without columns. *)
Record DataFrame : Type := {
  columns : list (list N);
  rows : list json
}.

Definition keys_of (row : json) : list (list N) :=
  match row with JDict d => fst <$> d | _ => [] end.

Fixpoint add_new (ks : list (list N)) (cols : list (list N)) : list (list N) :=
  match ks with
  | [] => cols
  | k :: ks' => add_new ks' (if bool_decide (k ∈ cols) then cols else cols ++ [k])
  end.

Definition mk_frame (data : list json) : DataFrame :=
  {| columns := foldl (fun cols row => add_new (keys_of row) cols) [] data;
     rows := data |}.

(** While it builds a column, pandas converts every integer it meets to a
    float, and Python refuses that for an integer of about 1024 bits or
    more.  Whether [pd.DataFrame(data)] raises is left to the runtime as
    soon as a dictionary of [data] holds an integer of 1000 bits. *)
Definition giant (n : Z) : bool := 2 ^ 1000 <=? Z.abs n.

Definition has_giant (data : list json) : bool :=
  existsb (fun row =>
             match row with
             | JDict d => existsb (fun kv => match kv.2 with
                                             | JNum n => giant n
                                             | _ => false
                                             end) d
             | _ => false
             end) data.

(** [pd.DataFrame(data)] *)
Definition data_frame (env : Env) (data : list json) : res DataFrame :=
  if has_giant data then
    match frame_error env data with
    | Some e => Raise e
    | None => Ok (mk_frame data)
    end
  else Ok (mk_frame data).

(** The cell of a row under a column name, as the constructor finds it:
    [None] where the dictionary has no such key. *)
Definition raw_cell (k : list N) (row : json) : option json :=
  match row with JDict d => dict_lookup k d | _ => None end.

(** [df[k]]: a missing column is a [KeyError].  A column is kept as the
    cells it was built from; how pandas holds them is [dtype_of], and what
    it made of them is [values]. *)
Definition column (df : DataFrame) (k : list N) : res (list (option json)) :=
  if bool_decide (k ∈ columns df) then Ok (raw_cell k <$> rows df)
  else Raise KeyError.

(** *** How a column is held

    pandas looks at the cells of a column and chooses its dtype.  A cell
    is missing either because its value is [None] or because the row has
    no such key, which the constructor fills with not-a-number. *)
Inductive dtype : Type :=
| DInt64     (* integers that fit in 64 bits, none missing *)
| DBool      (* booleans, none missing *)
| DFloat64   (* integers and missing cells: the integers become floats *)
| DStr       (* strings and missing cells *)
| DObject    (* the values as they were given *)
| DOther.    (* left to the runtime *)

Definition is_na (c : option json) : bool :=
  match c with None | Some JNull => true | _ => false end.

Definition is_absent (c : option json) : bool :=
  match c with None => true | _ => false end.

Definition is_int (c : option json) : bool :=
  match c with Some (JNum _) => true | _ => false end.

Definition is_boolean (c : option json) : bool :=
  match c with Some (JBool _) => true | _ => false end.

Definition is_text (c : option json) : bool :=
  match c with Some (JStr _) => true | _ => false end.

Definition is_nested (c : option json) : bool :=
  match c with Some (JList _) | Some (JDict _) => true | _ => false end.

Definition int_of (c : option json) : option Z :=
  match c with Some (JNum n) => Some n | _ => None end.

(** The integers of a column, and the column with 0 at every other
    cell. *)
Definition ints (col : list (option json)) : list Z := omap int_of col.

Definition zero_filled (col : list (option json)) : list Z :=
  (fun c => default 0 (int_of c)) <$> col.

Definition fits_int64 (n : Z) : bool := (- 2 ^ 63 <=? n) && (n <? 2 ^ 63).

(** Every integer of absolute value at most 2^53 is a float. *)
Definition fits_float (n : Z) : bool := Z.abs n <=? 2 ^ 53.

(** The dtype of a column.
    - A list or a dictionary makes an [object] column.
    - Otherwise a string does: the column is [object] too, but is set
      apart when all its other cells are missing, because pandas 3 holds
      such a column with the [str] dtype.
    - Otherwise a boolean makes a [bool] column if all cells are booleans,
      and an [object] column if not.
    - Otherwise an integer makes an [int64] column if no cell is missing
      and all integers fit ([uint64] or [object] if they do not: the
      values stay as they are, the aggregates are the runtime's), and a
      [float64] column if a cell is missing; with integers that a float
      does not hold exactly, that column is left to the runtime.
    - A column of [None] only is an [object] column; with a cell that is
      absent it is left to the runtime. *)
Definition dtype_of (col : list (option json)) : dtype :=
  if existsb is_nested col then DObject
  else if existsb is_text col then
    if forallb (fun c => is_text c || is_na c) col then DStr else DObject
  else if existsb is_boolean col then
    if forallb is_boolean col then DBool else DObject
  else if existsb is_int col then
    if existsb is_na col then
      if forallb fits_float (ints col) then DFloat64 else DOther
    else
      if forallb fits_int64 (ints col) then DInt64 else DObject
  else if existsb is_absent col then DOther
  else DObject.

(** What the column holds at position [i], where it was given [c], and
    what [to_dict('records')] returns there: in a [float64] column the
    integers have become floats and the missing cells not-a-number; with
    the [str] dtype the missing cells are all not-a-number; elsewhere every
    value is as it was given, and a cell that is absent is not-a-number. *)
Definition stored_cell (env : Env) (col : list (option json)) (i : nat) (c : option json)
    : value :=
  match dtype_of col with
  | DFloat64 => match c with Some (JNum n) => Float n | _ => NaN end
  | DStr =>
      match c with
      | Some JNull => if infer_string env then NaN else Plain JNull
      | Some v => Plain v
      | None => NaN
      end
  | DOther => odd_cell env col i
  | _ => match c with Some v => Plain v | None => NaN end
  end.

(** The values of a column, as a loop over it draws them. *)
Definition values (env : Env) (col : list (option json)) : list value :=
  imap (stored_cell env col) col.

(** [df.to_dict('records')]: one dictionary per row, with every column of
    the frame as a key. *)
Definition to_dict_records (env : Env) (df : DataFrame) : list record :=
  imap (fun i row =>
          (fun k => (k, stored_cell env (raw_cell k <$> rows df) i (raw_cell k row)))
            <$> columns df)
       (rows df).

(** *** Aggregates *)

Definition sum_Z (l : list Z) : Z := foldr Z.add 0 l.

(** Arithmetic of [int64]: the sum wraps around. *)
Definition wrap64 (z : Z) : Z := (z + 2 ^ 63) mod 2 ^ 64 - 2 ^ 63.

(** The sum of integers as numpy adds them in [float64].  It is exact,
    in whatever order they are added, when the absolute values add up to
    at most 2^53; beyond that the result depends on the rounding of every
    step and is the runtime's. *)
Definition float64_sum (env : Env) (ns : list Z) : Z :=
  if sum_Z (Z.abs <$> ns) <=? 2 ^ 53 then sum_Z ns else np_float_sum env ns.

Definition count_true (col : list (option json)) : nat :=
  length (List.filter (fun c => match c with Some (JBool true) => true | _ => false end) col).

(** [series.sum()]: a [numpy.int64] for integers, with wrap-around, and
    for booleans, which count as 0 and 1; a [numpy.float64] for a
    [float64] column, where the missing cells count as 0. *)
Definition series_sum (env : Env) (col : list (option json)) : res scalar :=
  match dtype_of col with
  | DInt64 => Ok (NpInt (wrap64 (sum_Z (ints col))))
  | DBool => Ok (NpInt (Z.of_nat (count_true col)))
  | DFloat64 => Ok (NpFloat (float64_sum env (zero_filled col)))
  | _ => object_sum env col
  end.

(** [series.mean()]: the sum, taken in [float64], over the number of
    cells that are not missing; the quotient is kept as an exact rational,
    and [None] is not-a-number. *)
Definition series_mean (env : Env) (col : list (option json)) : res (option Q) :=
  match dtype_of col with
  | DInt64 => Ok (Some (float64_sum env (ints col) # Pos.of_nat (length col)))
  | DBool => Ok (Some (Z.of_nat (count_true col) # Pos.of_nat (length col)))
  | DFloat64 =>
      Ok (Some (float64_sum env (zero_filled col) # Pos.of_nat (length (ints col))))
  | _ => object_mean env col
  end.

(** [series.notna()]: the cells that are not missing. *)
Definition notna (col : list (option json)) : list (option json) :=
  List.filter (fun c => negb (is_na c)) col.

(** The cells that are not missing, as values. *)
Definition present (col : list (option json)) : list json :=
  omap (fun c => match c with Some JNull => None | _ => c end) col.

(** [series.nunique()]: the number of distinct values, missing cells left
    out. *)
Definition nunique (env : Env) (col : list (option json)) : res nat :=
  match dtype_of col with
  | DOther => Ok (odd_nunique env col)
  | _ =>
      if forallb hashable (present col) then Ok (length (distinct (present col)))
      else Raise TypeError
  end.

(** [int(x)] for an aggregate [x]. *)
Definition py_int (env : Env) (x : scalar) : res Z :=
  match x with
  | NpInt n => Ok n
  | NpFloat n => Ok n
  | PyValue v => object_int env v
  end.

(** [x / (1000 * 60 * 60)] for an aggregate [x]: the exact quotient,
    which the float division rounds.  A numpy integer is first converted
    to a float; where that is not exact, the result is the runtime's. *)
Definition py_hours (env : Env) (x : scalar) : res Q :=
  match x with
  | NpInt n => if fits_float n then Ok (n # 3600000) else object_hours env (JNum n)
  | NpFloat n => Ok (n # 3600000)
  | PyValue v => object_hours env v
  end.

(** The items a [for] loop or a comprehension draws from a cell: a float
    has none to give. *)
Definition iter_value (v : value) : res (list json) :=
  match v with
  | Plain j => py_iter j
  | _ => Raise TypeError
  end.

(** [bool(v)] for a cell; the floats here are not-a-number or come from
    an integer. *)
Definition truthy_value (v : value) : bool :=
  match v with
  | Plain j => truthy j
  | Float n => negb (n =? 0)
  | NaN => true
  end.

End Pandas.

Import Pandas.

(** ** The Spotify indexer *)

Module Spotify.

(** The attributes of a [SpotifyPlaylistIndexer] once [__init__] has run. *)
Record indexer : Type := {
  base_url : list N;
  access_token : list N;
  images_dir : list N;
  data_dir : list N
}.

Definition init (token : list N) : indexer :=
  {| base_url := lit "https://api.spotify.com/v1";
     access_token := token;
     images_dir := lit "playlist_images";
     data_dir := lit "playlist_data" |}.

Definition get_headers (self : indexer) : list (list N * list N) :=
  [ (lit "Authorization", lit "Bearer " ++ access_token self);
    (lit "Content-Type", lit "application/json") ].

(** [extract_playlist_id] *)
Definition extract_playlist_id (playlist_url : list N) : option (list N) :=
  if contains (lit "playlist/") playlist_url then
    let playlist_id := last_of (split (lit "playlist/") playlist_url) in
    let playlist_id := first_of (split (lit "?") playlist_id) in
    Some playlist_id
  else None.

(** The file name of a track's artwork, lines 267 to 271 of
    [process_track]: [re.sub(r'[^\w\s-]', '', s)], then
    [re.sub(r'[-\s]+', '_', s)], then [s[:100]] and the extension. *)
Definition strip_special (env : Env) (s : list N) : list N :=
  List.filter (fun c => isword env c || isspace env c || (c =? ch "-")%N) s.

Fixpoint collapse_runs (env : Env) (in_run : bool) (s : list N) : list N :=
  match s with
  | [] => []
  | c :: s' =>
      if (c =? ch "-")%N || isspace env c then
        if in_run then collapse_runs env true s'
        else ch "_" :: collapse_runs env true s'
      else c :: collapse_runs env false s'
  end.

Definition artwork_filename (env : Env) (track_index : Z) (primary_artist name : list N)
    : list N :=
  let safe_name := format_03d track_index ++ lit "_" ++ primary_artist ++ lit "_" ++ name in
  let safe_name := strip_special env safe_name in
  let safe_name := collapse_runs env false safe_name in
  let safe_name := take 100 safe_name in
  safe_name ++ lit ".jpg".

(** [convert_to_json_serializable] on what [df.to_dict('records')]
    returns: a list of dictionaries whose values are dicts, lists, strings,
    integers, booleans, null and Python floats.  None of them is a pandas
    object or has a [dtype], so only the last three branches of the source
    apply: a dict and a list are rebuilt from their converted parts, and
    anything else is returned as it is. *)
Fixpoint convert_to_json_serializable (obj : json) : json :=
  match obj with
  | JDict d => JDict ((fun kv => (kv.1, convert_to_json_serializable kv.2)) <$> d)
  | JList l => JList (convert_to_json_serializable <$> l)
  | _ => obj
  end.

Definition convert_value (v : value) : value :=
  match v with
  | Plain obj => Plain (convert_to_json_serializable obj)
  | _ => v
  end.

Definition convert_records (l : list record) : list record :=
  (fun r : record => (fun kv => (kv.1, convert_value kv.2)) <$> r) <$> l.

Section WithEnv.
Context (env : Env).

(** [get_playlist_details]; [JNull] is Python's [None]. *)
Definition get_playlist_details (self : indexer) (playlist_id : list N) : M json :=
  let url := base_url self ++ lit "/playlists/" ++ playlist_id in
  let* r := requests_get env (JStr url) (get_headers self) [] in
  match r with
  | None => ret JNull
  | Some response =>
      if raises_for_status response then ret JNull
      else ret (body_json response)
  end.

(** The [while True] loop of [get_playlist_tracks].  [None] means that the
    loop was still running when [fuel] rounds were over. *)
Fixpoint get_playlist_tracks_loop (fuel : nat) (self : indexer) (url : list N)
    (offset : Z) (all_tracks : list json) : M (option (list json)) :=
  match fuel with
  | O => ret None
  | S fuel' =>
      let* r := requests_get env (JStr url) (get_headers self)
             [(lit "limit", JNum 100); (lit "offset", JNum offset)] in
      match r with
      | None => ret (Some all_tracks)
      | Some response =>
          if raises_for_status response then ret (Some all_tracks)
          else
            let data := body_json response in
            let* tracks := lift (py_get data (lit "items") (JList [])) in
            if negb (truthy tracks) then ret (Some all_tracks)
            else
              let* items := lift (py_iter tracks) in
              let all_tracks := all_tracks ++ items in
              let* next := lift (py_get data (lit "next") JNull) in
              if is_none next then ret (Some all_tracks)
              else get_playlist_tracks_loop fuel' self url (offset + 100) all_tracks
      end
  end.

Definition get_playlist_tracks (fuel : nat) (self : indexer) (playlist_id : list N)
    : M (option (list json)) :=
  let url := base_url self ++ lit "/playlists/" ++ playlist_id ++ lit "/tracks" in
  get_playlist_tracks_loop fuel self url 0 [].

(** [download_artwork] *)
Definition download_artwork (self : indexer) (artwork_url : json) (filename : list N)
    : M json :=
  if negb (truthy artwork_url) then ret JNull
  else
    let file_path := path_join (images_dir self) filename in
    let* present := path_exists file_path in
    if present then ret (JStr file_path)
    else
      let* r := requests_get env artwork_url [] [] in
      match r with
      | None => ret JNull
      | Some response =>
          if raises_for_status response then ret JNull
          else
            let* written := write_file file_path (Image (content response)) in
            ret (JStr file_path)
      end.

(** [[artist.get('name', '') for artist in artists]] *)
Fixpoint artist_names_of (artists : list json) : res (list json) :=
  match artists with
  | [] => Ok []
  | artist :: rest =>
      res_bind (py_get artist (lit "name") (JStr [])) (fun n =>
      res_bind (artist_names_of rest) (fun ns => Ok (n :: ns)))
  end.

(** [process_track]; the result is [JNull] for a dropped item. *)
Definition process_track (self : indexer) (track_item : json) (track_index : Z) : M json :=
  let* track_data := lift (py_get track_item (lit "track") (JDict [])) in
  if negb (truthy track_data) then ret JNull
  else
    let* ty := lift (py_get track_data (lit "type") JNull) in
    if negb (is_str ty (lit "track")) then ret JNull
    else
      let* artists := lift (py_get track_data (lit "artists") (JList [])) in
      let* artist_list := lift (py_iter artists) in
      let* artist_names := lift (artist_names_of artist_list) in
      let primary_artist :=
        match artist_names with a :: _ => a | [] => JStr (lit "Unknown Artist") end in
      let* album := lift (py_get track_data (lit "album") (JDict [])) in
      let* album_name := lift (py_get album (lit "name") (JStr (lit "Unknown Album"))) in
      let* album_images := lift (py_get album (lit "images") (JList [])) in
      let* artwork_url :=
        (if truthy album_images then
           let* first_image := lift (py_index0 album_images) in
           lift (py_get first_image (lit "url") JNull)
         else ret JNull) in
      let* t_id := lift (py_get track_data (lit "id") JNull) in
      let* t_name := lift (py_get track_data (lit "name") JNull) in
      let* album_id := lift (py_get album (lit "id") JNull) in
      let* duration_ms := lift (py_get track_data (lit "duration_ms") JNull) in
      let* explicit := lift (py_get track_data (lit "explicit") (JBool false)) in
      let* popularity := lift (py_get track_data (lit "popularity") (JNum 0)) in
      let* track_number := lift (py_get track_data (lit "track_number") JNull) in
      let* disc_number := lift (py_get track_data (lit "disc_number") JNull) in
      let* release_date := lift (py_get album (lit "release_date") JNull) in
      let* release_date_precision := lift (py_get album (lit "release_date_precision") JNull) in
      let* album_type := lift (py_get album (lit "album_type") JNull) in
      let* total_tracks := lift (py_get album (lit "total_tracks") JNull) in
      let* external_urls := lift (py_get track_data (lit "external_urls") (JDict [])) in
      let* preview_url := lift (py_get track_data (lit "preview_url") JNull) in
      let* external_urls' := lift (py_get track_data (lit "external_urls") (JDict [])) in
      let* spotify_url := lift (py_get external_urls' (lit "spotify") JNull) in
      let* added_at := lift (py_get track_item (lit "added_at") JNull) in
      let* added_by := lift (py_get track_item (lit "added_by") (JDict [])) in
      let* added_by_id := lift (py_get added_by (lit "id") JNull) in
      let track_info :=
        [ (lit "index", JNum track_index);
          (lit "id", t_id);
          (lit "name", t_name);
          (lit "artist_name", primary_artist);
          (lit "all_artists", JList artist_names);
          (lit "album_name", album_name);
          (lit "album_id", album_id);
          (lit "duration_ms", duration_ms);
          (lit "explicit", explicit);
          (lit "popularity", popularity);
          (lit "track_number", track_number);
          (lit "disc_number", disc_number);
          (lit "release_date", release_date);
          (lit "release_date_precision", release_date_precision);
          (lit "album_type", album_type);
          (lit "total_tracks", total_tracks);
          (lit "external_urls", external_urls);
          (lit "preview_url", preview_url);
          (lit "spotify_url", spotify_url);
          (lit "added_at", added_at);
          (lit "added_by", added_by_id);
          (lit "artwork_url", artwork_url);
          (lit "artwork_local_path", JNull) ] in
      if truthy artwork_url then
        let artwork_filename :=
          artwork_filename env track_index (py_str env primary_artist) (py_str env t_name) in
        let* local_path := download_artwork self artwork_url artwork_filename in
        if truthy local_path then
          ret (JDict (dict_set (lit "artwork_local_path") local_path track_info))
        else ret (JDict track_info)
      else ret (JDict track_info).

(** The [for] loop of [index_playlist] over [enumerate(tracks_data, 1)]:
    the logging line comes first, then [process_track], and the item is
    appended if the result is truthy. *)
Fixpoint process_all (self : indexer) (tracks_data : list json) (index : Z)
    (processed_tracks : list json) : M (list json) :=
  match tracks_data with
  | [] => ret processed_tracks
  | track_item :: rest =>
      let* track := lift (py_get track_item (lit "track") (JDict [])) in
      let* track_name := lift (py_get track (lit "name") (JStr (lit "Unknown"))) in
      let* track_info := process_track self track_item index in
      process_all self rest (index + 1)
        (if truthy track_info then processed_tracks ++ [track_info] else processed_tracks)
  end.

(** [all_artist_names.extend(artists_list)] for every cell of the column. *)
Fixpoint extend_all (cells : list value) : res (list json) :=
  match cells with
  | [] => Ok []
  | artists_list :: rest =>
      let? xs := iter_value artists_list in
      let? ys := extend_all rest in
      Ok (xs ++ ys)
  end.

(** Lines 441 to 476 of [index_playlist]: the data frame, the summary
    statistics and the "summary" entry of [final_data], in the order in
    which the source evaluates them. *)
Definition summarize (processed_tracks : list json) : res SpotifyDoc.summary :=
  let? df := data_frame env processed_tracks in
  let? duration := column df (lit "duration_ms") in
  let? total_duration := series_sum env duration in
  let? artist_col := column df (lit "artist_name") in
  let? unique_artists := nunique env artist_col in
  let? album_col := column df (lit "album_name") in
  let? unique_albums := nunique env album_col in
  let? all_artists_col := column df (lit "all_artists") in
  let? all_artist_names := extend_all (values env all_artists_col) in
  let? artist_set := set_of all_artist_names in
  let unique_all_artists := length artist_set in
  let? total_duration_ms := py_int env total_duration in
  let? total_duration_hours := py_hours env total_duration in
  let? popularity_col := column df (lit "popularity") in
  let? mean_popularity := series_mean env popularity_col in
  let? explicit_col := column df (lit "explicit") in
  let? explicit_sum := series_sum env explicit_col in
  let? explicit_count := py_int env explicit_sum in
  let? preview_col := column df (lit "preview_url") in
  Ok {| SpotifyDoc.total_tracks := length processed_tracks;
        SpotifyDoc.total_duration_ms := total_duration_ms;
        SpotifyDoc.total_duration_hours := total_duration_hours;
        SpotifyDoc.unique_primary_artists := unique_artists;
        SpotifyDoc.unique_all_artists := unique_all_artists;
        SpotifyDoc.unique_albums := unique_albums;
        SpotifyDoc.average_popularity := mean_popularity;
        SpotifyDoc.explicit_tracks := explicit_count;
        SpotifyDoc.tracks_with_preview := length (notna preview_col);
        SpotifyDoc.indexed_at := now_iso env |}.

(** The "tracks" entry of [final_data], line 457:
    [self.convert_to_json_serializable(df.to_dict('records'))]. *)
Definition track_records (processed_tracks : list json) : list record :=
  convert_records (to_dict_records env (mk_frame processed_tracks)).

(** Lines 382 to 395 of [index_playlist]: the metadata dictionary. *)
Definition playlist_metadata_of (playlist_url : list N) (playlist_data : json) : res json :=
  let? p_id := py_get playlist_data (lit "id") JNull in
  let? p_name := py_get playlist_data (lit "name") JNull in
  let? description := py_get playlist_data (lit "description") JNull in
  let? owner := py_get playlist_data (lit "owner") (JDict []) in
  let? owner_name := py_get owner (lit "display_name") JNull in
  let? owner' := py_get playlist_data (lit "owner") (JDict []) in
  let? owner_id := py_get owner' (lit "id") JNull in
  let? public := py_get playlist_data (lit "public") JNull in
  let? collaborative := py_get playlist_data (lit "collaborative") JNull in
  let? followers := py_get playlist_data (lit "followers") (JDict []) in
  let? follower_count := py_get followers (lit "total") JNull in
  let? p_tracks := py_get playlist_data (lit "tracks") (JDict []) in
  let? track_count := py_get p_tracks (lit "total") JNull in
  let? external_urls := py_get playlist_data (lit "external_urls") (JDict []) in
  let? spotify_url := py_get external_urls (lit "spotify") JNull in
  let? snapshot_id := py_get playlist_data (lit "snapshot_id") JNull in
  Ok (JDict [ (lit "id", p_id);
              (lit "name", p_name);
              (lit "description", description);
              (lit "owner", owner_name);
              (lit "owner_id", owner_id);
              (lit "public", public);
              (lit "collaborative", collaborative);
              (lit "follower_count", follower_count);
              (lit "track_count", track_count);
              (lit "url", JStr playlist_url);
              (lit "spotify_url", spotify_url);
              (lit "snapshot_id", snapshot_id) ]).

(** Lines 401 to 489 of [index_playlist]: what the run does with the
    track list once it has it.  Nothing here asks whether the list is
    complete.  Every number of [final_data] has been converted to a number
    of Python ([int(...)], [float(...)], line 457 for the tracks), so
    [json.dump] writes the whole of it. *)
Definition index_tracks (self : indexer) (playlist_id : list N) (playlist_metadata : json)
    (tracks_data : list json) : M json :=
  let* processed_tracks := process_all self tracks_data 1 [] in
  let* stats := lift (summarize processed_tracks) in
  let final_data :=
    {| playlist_metadata := playlist_metadata;
       tracks := track_records processed_tracks;
       summary := stats |} in
  let json_filename :=
    lit "spotify_playlist_" ++ playlist_id ++ lit "_" ++ now_stamp env ++ lit ".json" in
  let json_path := path_join (data_dir self) json_filename in
  let* written := write_file json_path (SpotifySnapshot final_data) in
  ret (JStr json_path).

(** [index_playlist].  The outer [option] is [None] only when the track
    lister ran out of fuel; inside, [JNull] is the [None] the function
    returns on failure and [JStr path] the path of the snapshot. *)
Definition index_playlist (fuel : nat) (self : indexer) (playlist_url : list N)
    : M (option json) :=
  match extract_playlist_id playlist_url with
  | None => ret (Some JNull)
  | Some [] => ret (Some JNull)
  | Some playlist_id =>
      let* playlist_data := get_playlist_details self playlist_id in
      if negb (truthy playlist_data) then ret (Some JNull)
      else
        let* playlist_metadata := lift (playlist_metadata_of playlist_url playlist_data) in
        let* fetched := get_playlist_tracks fuel self playlist_id in
        match fetched with
        | None => ret None
        | Some tracks_data =>
            let* result := index_tracks self playlist_id playlist_metadata tracks_data in
            ret (Some result)
        end
  end.

End WithEnv.

End Spotify.

(** ** The Apple Music indexer *)

Module Apple.

(** The attributes of an [AppleMusicPlaylistIndexer]. *)
Record indexer : Type := {
  developer_token : list N;
  storefront : list N;
  base_url : list N;
  headers : list (list N * list N);
  images_dir : list N;
  data_dir : list N
}.

Definition init (developer_token storefront : list N) : indexer :=
  {| developer_token := developer_token;
     storefront := storefront;
     base_url := lit "https://api.music.apple.com/v1";
     headers := [ (lit "Authorization", lit "Bearer " ++ developer_token);
                  (lit "Accept", lit "application/json");
                  (lit "Content-Type", lit "application/json") ];
     images_dir := lit "playlist_images";
     data_dir := lit "playlist_data" |}.

(** [extract_playlist_id] *)
Definition extract_playlist_id (playlist_url : list N) : option (list N) :=
  if contains (lit "/playlist/") playlist_url then
    Some (last_of (split (lit "/") (last_of (split (lit "/playlist/") playlist_url))))
  else None.

(** [s.rstrip()] *)
Fixpoint lstrip (env : Env) (s : list N) : list N :=
  match s with
  | [] => []
  | c :: s' => if isspace env c then lstrip env s' else s
  end.

Definition rstrip (env : Env) (s : list N) : list N :=
  reverse (lstrip env (reverse s)).

(** The file name of a track's artwork, lines 155 to 158 of
    [process_track]. *)
Definition artwork_filename (env : Env) (track_index : Z) (artist_name name : list N)
    : list N :=
  let safe_name := format_03d track_index ++ lit "_" ++ artist_name ++ lit "_" ++ name in
  let safe_name :=
    rstrip env
      (List.filter
         (fun c => isalnum env c
                   || (c =? ch " ")%N || (c =? ch "-")%N || (c =? ch "_")%N)
         safe_name) in
  let safe_name := take 100 (replace (lit " ") (lit "_") safe_name) in
  safe_name ++ lit ".jpg".

Section WithEnv.
Context (env : Env).

(** [get_playlist_details] *)
Definition get_playlist_details (self : indexer) (playlist_id : list N) : M json :=
  let url :=
    base_url self ++ lit "/catalog/" ++ storefront self ++ lit "/playlists/"
    ++ playlist_id in
  let params := [(lit "include", JStr (lit "tracks")); (lit "limit", JNum 300)] in
  let* r := requests_get env (JStr url) (headers self) params in
  match r with
  | None => ret JNull
  | Some response =>
      if raises_for_status response then ret JNull
      else ret (body_json response)
  end.

(** [download_artwork]: the placeholder test and the replacement are
    inside the [try], but what they can raise is not a
    [RequestException] and escapes. *)
Definition download_artwork (self : indexer) (artwork_url : json) (filename : list N)
    : M json :=
  if negb (truthy artwork_url) then ret JNull
  else
    let* has_placeholder := lift (py_in (lit "{w}x{h}") artwork_url) in
    let* artwork_url :=
      (if has_placeholder
       then lift (py_replace artwork_url (lit "{w}x{h}") (lit "1200x1200"))
       else ret artwork_url) in
    let* r := requests_get env artwork_url [] [] in
    match r with
    | None => ret JNull
    | Some response =>
        if raises_for_status response then ret JNull
        else
          let file_path := path_join (images_dir self) filename in
          let* written := write_file file_path (Image (content response)) in
          ret (JStr file_path)
    end.

(** [track_data.get('attributes', {}).get(k, dflt)] *)
Definition attribute (track_data : json) (k : list N) (dflt : json) : res json :=
  let? attributes := py_get track_data (lit "attributes") (JDict []) in
  py_get attributes k dflt.

(** [process_track] *)
Definition process_track (self : indexer) (track_data : json) (track_index : Z) : M json :=
  let* t_id := lift (py_get track_data (lit "id") JNull) in
  let* t_type := lift (py_get track_data (lit "type") JNull) in
  let* name := lift (attribute track_data (lit "name") JNull) in
  let* artist_name := lift (attribute track_data (lit "artistName") JNull) in
  let* album_name := lift (attribute track_data (lit "albumName") JNull) in
  let* duration_ms := lift (attribute track_data (lit "durationInMillis") JNull) in
  let* release_date := lift (attribute track_data (lit "releaseDate") JNull) in
  let* genre_names := lift (attribute track_data (lit "genreNames") (JList [])) in
  let* track_number := lift (attribute track_data (lit "trackNumber") JNull) in
  let* disc_number := lift (attribute track_data (lit "discNumber") JNull) in
  let* isrc := lift (attribute track_data (lit "isrc") JNull) in
  let* content_rating := lift (attribute track_data (lit "contentRating") JNull) in
  let* previews := lift (attribute track_data (lit "previews") (JList [JDict []])) in
  let* first_preview := lift (py_index0 previews) in
  let* preview_url := lift (py_get first_preview (lit "url") JNull) in
  let track_info :=
    [ (lit "index", JNum track_index);
      (lit "id", t_id);
      (lit "type", t_type);
      (lit "name", name);
      (lit "artist_name", artist_name);
      (lit "album_name", album_name);
      (lit "duration_ms", duration_ms);
      (lit "release_date", release_date);
      (lit "genre_names", genre_names);
      (lit "track_number", track_number);
      (lit "disc_number", disc_number);
      (lit "isrc", isrc);
      (lit "content_rating", content_rating);
      (lit "preview_url", preview_url);
      (lit "artwork_url", JNull);
      (lit "artwork_local_path", JNull) ] in
  let* artwork := lift (attribute track_data (lit "artwork") JNull) in
  if truthy artwork then
    let* artwork_url := lift (py_get artwork (lit "url") JNull) in
    if truthy artwork_url then
      let track_info := dict_set (lit "artwork_url") artwork_url track_info in
      let artwork_filename :=
        artwork_filename env track_index (py_str env artist_name) (py_str env name) in
      let* local_path := download_artwork self artwork_url artwork_filename in
      if truthy local_path then
        ret (JDict (dict_set (lit "artwork_local_path") local_path track_info))
      else ret (JDict track_info)
    else ret (JDict track_info)
  else ret (JDict track_info).

(** The [for] loop of [index_playlist]: every result is appended. *)
Fixpoint process_all (self : indexer) (tracks_data : list json) (index : Z)
    (processed_tracks : list json) : M (list json) :=
  match tracks_data with
  | [] => ret processed_tracks
  | track :: rest =>
      let* track_name := lift (attribute track (lit "name") JNull) in
      let* track_info := process_track self track index in
      process_all self rest (index + 1) (processed_tracks ++ [track_info])
  end.

(** [[genre for genres in column for genre in genres if genres]] *)
Fixpoint all_genres (cells : list value) : res (list json) :=
  match cells with
  | [] => Ok []
  | genres :: rest =>
      let? gs := iter_value genres in
      let? more := all_genres rest in
      Ok (List.filter (fun _ => truthy_value genres) gs ++ more)
  end.

(** Lines 223 to 236 of [index_playlist]: the data frame and the "summary"
    entry of [final_data]. *)
Definition summarize (processed_tracks : list json) : res AppleDoc.summary :=
  let? df := data_frame env processed_tracks in
  let? duration := column df (lit "duration_ms") in
  let? total_duration := series_sum env duration in
  let? artist_col := column df (lit "artist_name") in
  let? unique_artists := nunique env artist_col in
  let? album_col := column df (lit "album_name") in
  let? unique_albums := nunique env album_col in
  let? genre_col := column df (lit "genre_names") in
  let? genre_list := all_genres (values env genre_col) in
  let? genre_set := set_of genre_list in
  Ok {| AppleDoc.total_tracks := length processed_tracks;
        AppleDoc.total_duration_ms := total_duration;
        AppleDoc.unique_artists := unique_artists;
        AppleDoc.unique_albums := unique_albums;
        AppleDoc.genres := genre_set;
        AppleDoc.indexed_at := now_iso env |}.

(** The "tracks" entry of [final_data], line 228: [df.to_dict('records')]. *)
Definition track_records (processed_tracks : list json) : list record :=
  to_dict_records env (mk_frame processed_tracks).

(** Lines 243 and 244 of [index_playlist]: [open(json_path, 'w')] and
    [json.dump(final_data, f, indent=2, ensure_ascii=False)].  The encoder
    writes [final_data] piece by piece and knows the numbers of Python
    only: a [numpy.float64] is a Python float, a numpy integer is not a
    Python integer.  When the total duration is a numpy integer the
    encoder raises [TypeError] there, and the file keeps what was written
    before. *)
Definition json_dump (json_path : list N) (final_data : snapshot AppleDoc.summary) : M unit :=
  match AppleDoc.total_duration_ms (summary final_data) with
  | NpInt _ =>
      let* written :=
        write_file json_path
          (Truncated (playlist_metadata final_data) (tracks final_data)
             (AppleDoc.total_tracks (summary final_data))) in
      lift (Raise TypeError)
  | _ => write_file json_path (AppleSnapshot final_data)
  end.

(** [index_playlist]; [JNull] is the [None] returned on failure. *)
Definition index_playlist (self : indexer) (playlist_url : list N) : M json :=
  match extract_playlist_id playlist_url with
  | None => ret JNull
  | Some [] => ret JNull
  | Some playlist_id =>
      let* playlist_data := get_playlist_details self playlist_id in
      if negb (truthy playlist_data) then ret JNull
      else
        let* data := lift (py_get playlist_data (lit "data") (JList [JDict []])) in
        let* playlist_info := lift (py_index0 data) in
        let* playlist_attributes := lift (py_get playlist_info (lit "attributes") (JDict [])) in
        let* p_id := lift (py_get playlist_info (lit "id") JNull) in
        let* p_name := lift (py_get playlist_attributes (lit "name") JNull) in
        let* description := lift (py_get playlist_attributes (lit "description") (JDict [])) in
        let* standard := lift (py_get description (lit "standard") JNull) in
        let* curator_name := lift (py_get playlist_attributes (lit "curatorName") JNull) in
        let* last_modified := lift (py_get playlist_attributes (lit "lastModifiedDate") JNull) in
        let* p_tracks := lift (py_get playlist_attributes (lit "tracks") (JDict [])) in
        let* p_tracks_data := lift (py_get p_tracks (lit "data") (JList [])) in
        let* track_count := lift (py_len p_tracks_data) in
        let playlist_metadata :=
          JDict [ (lit "id", p_id);
                  (lit "name", p_name);
                  (lit "description", standard);
                  (lit "curator_name", curator_name);
                  (lit "last_modified_date", last_modified);
                  (lit "track_count", JNum (Z.of_nat track_count));
                  (lit "url", JStr playlist_url) ] in
        let* p_tracks' := lift (py_get playlist_attributes (lit "tracks") (JDict [])) in
        let* tracks_data := lift (py_get p_tracks' (lit "data") (JList [])) in
        let* track_items := lift (py_iter tracks_data) in
        let* processed_tracks := process_all self track_items 1 [] in
        let* stats := lift (summarize processed_tracks) in
        let final_data :=
          {| playlist_metadata := playlist_metadata;
             tracks := track_records processed_tracks;
             summary := stats |} in
        let json_filename :=
          lit "playlist_" ++ playlist_id ++ lit "_" ++ now_stamp env ++ lit ".json" in
        let json_path := path_join (data_dir self) json_filename in
        let* written := json_dump json_path final_data in
        ret (JStr json_path)
  end.

End WithEnv.

End Apple.

(** ** Vocabulary of the statements *)

(** A separator is unbordered when none of its proper prefixes is also a
    suffix; two occurrences of such a separator never overlap. *)
Definition unbordered (sep : list N) : Prop :=
  forall u v w, sep = u ++ v -> sep = v ++ w -> u <> [] -> v <> [] -> False.

Definition unborderedb (sep : list N) : bool :=
  forallb (fun k => negb (bool_decide (take k sep = drop (length sep - k) sep)))
          (seq 1 (length sep - 1)).

(** The characters the specification allows in the stem of an artwork file
    name, and the shape it requires of the whole name. *)
Definition filename_char_ok (env : Env) (c : N) : bool :=
  isalnum env c || (c =? ch " ")%N || (c =? ch "-")%N || (c =? ch "_")%N.

Definition safe_filename (env : Env) (name : list N) : Prop :=
  exists stem,
    name = stem ++ lit ".jpg"
    /\ Forall (fun c => filename_char_ok env c = true) stem
    /\ (length stem <= 100)%nat.

(** ** Sample environments for the examples *)

(** A runtime that knows ASCII only, with a fixed clock.  What is left
    open of pandas is set to some value; the runs of the examples never
    ask for it. *)
Definition ascii_env (net : list request -> request -> net_reply) : Env :=
  {| uni_isalnum := fun _ => false;
     uni_isspace := fun _ => false;
     py_repr := fun _ => lit "<object>";
     net := net;
     now_iso := lit "2025-01-01T00:00:00";
     now_stamp := lit "20250101_000000";
     infer_string := false;
     np_float_sum := fun _ => 0;
     object_sum := fun _ => Raise TypeError;
     object_mean := fun _ => Raise TypeError;
     object_int := fun _ => Raise TypeError;
     object_hours := fun _ => Raise TypeError;
     odd_cell := fun _ _ => NaN;
     odd_nunique := fun _ => 0%nat;
     frame_error := fun _ => None |}.

(** A network on which every request fails. *)
Definition offline : list request -> request -> net_reply := fun _ _ => NetError.

Definition empty_world : World := {| files := ∅; net_log := [] |}.

(** ** Worlds and requests used in the statements *)

(** The request [requests.get(url, timeout=30)] sends for an image. *)
Definition image_request (u : list N) : request :=
  {| req_url := u; req_headers := []; req_params := [] |}.

(** The world after one more request, and after one more file write. *)
Definition logged (rq : request) (w : World) : World :=
  {| files := files w; net_log := net_log w ++ [rq] |}.

Definition stored (p : list N) (d : file_data) (w : World) : World :=
  {| files := <[p := d]> (files w); net_log := net_log w |}.

(** A server that answers every request with the same image. *)
Definition image_server (data : list byte) : list request -> request -> net_reply :=
  fun _ _ => Reply {| status_code := 200; content := data; body_json := JNull |}.

(** The request the track lister sends for the page at [offset]. *)
Definition tracks_request (self : Spotify.indexer) (url : list N) (offset : Z) : request :=
  {| req_url := url;
     req_headers := Spotify.get_headers self;
     req_params := [(lit "limit", JNum 100); (lit "offset", JNum offset)] |}.

Definition tracks_url (self : Spotify.indexer) (playlist_id : list N) : list N :=
  Spotify.base_url self ++ lit "/playlists/" ++ playlist_id ++ lit "/tracks".

(** The server answers [rq], whenever it is sent, with a success status
    and a page that holds [items]; [more] tells whether the "next" marker
    of the page is set. *)
Definition answers (env : Env) (rq : request) (items : list json) (more : bool) : Prop :=
  forall log, exists r,
    net env log rq = Reply r
    /\ raises_for_status r = false
    /\ py_get (body_json r) (lit "items") (JList []) = Ok (JList items)
    /\ exists next,
         py_get (body_json r) (lit "next") JNull = Ok next /\ is_none next = negb more.

(** The request [rq] fails whenever it is sent: no response, or a 4xx or
    5xx status. *)
Definition fails (env : Env) (rq : request) : Prop :=
  forall log,
    match net env log rq with
    | NetError => True
    | Reply r => raises_for_status r = true
    end.

(** The pages [pages] are served one after the other, each with items and
    with the "next" marker set. *)
Definition serves (env : Env) (self : Spotify.indexer) (url : list N)
    (pages : list (list json)) : Prop :=
  forall (k : nat) items,
    pages !! k = Some items ->
    items <> [] /\ answers env (tracks_request self url (100 * Z.of_nat k)) items true.

(** The requests of the first [n] pages. *)
Definition page_requests (self : Spotify.indexer) (url : list N) (n : nat) : list request :=
  (fun k : nat => tracks_request self url (100 * Z.of_nat k)) <$> seq 0 n.

(** How the lister's loop comes to its end at the request [rq]: with a
    last page that has no "next" marker or is empty, or with a failure. *)
Definition ends (env : Env) (rq : request) (last : list json) : Prop :=
  (exists more, answers env rq last more /\ (more = false \/ last = []))
  \/ (fails env rq /\ last = []).




(** A mock of the servers.  A request with an "offset" parameter gets the
    page of [pages] at that offset, with the "next" marker set on all pages
    but the last; from page [down_from] on, the connection fails.  A request
    without headers is for an image and gets [image]; any other request
    gets the playlist [details]. *)
Definition mock_api (details : json) (pages : list (list json)) (down_from : nat)
    (image : list byte) : list request -> request -> net_reply :=
  fun _ rq =>
    match dict_lookup (lit "offset") (req_params rq) with
    | Some (JNum o) =>
        let k := Z.to_nat (o / 100) in
        if bool_decide (down_from <= k)%nat then NetError
        else
          match pages !! k with
          | Some items =>
              Reply {| status_code := 200;
                       content := [];
                       body_json :=
                         JDict [ (lit "items", JList items);
                                 (lit "next",
                                  if bool_decide (S k < length pages)%nat
                                  then JStr (lit "https://api.spotify.com/v1/next")
                                  else JNull) ] |}
          | None => Reply {| status_code := 404; content := []; body_json := JNull |}
          end
    | _ =>
        match req_headers rq with
        | [] => Reply {| status_code := 200; content := image; body_json := JNull |}
        | _ :: _ => Reply {| status_code := 200; content := []; body_json := details |}
        end
    end.

(** A track item as the Spotify API sends it, without album images. *)
Definition sample_item (name : string) (kind : string) : json :=
  JDict [ (lit "added_at", JStr (lit "2024-05-01T10:00:00Z"));
          (lit "added_by", JDict [(lit "id", JStr (lit "user1"))]);
          (lit "track",
           JDict [ (lit "id", JStr (lit name));
                   (lit "name", JStr (lit name));
                   (lit "type", JStr (lit kind));
                   (lit "duration_ms", JNum 180000);
                   (lit "popularity", JNum 50);
                   (lit "explicit", JBool false);
                   (lit "artists", JList [JDict [(lit "name", JStr (lit "Artist"))]]);
                   (lit "album", JDict [(lit "name", JStr (lit "Album"))]) ]) ].

Definition sample_details : json :=
  JDict [ (lit "id", JStr (lit "PL1")); (lit "name", JStr (lit "Mix")) ].
(** The "index" entry of a normalized track. *)
Definition index_of (track_info : json) : option Z :=
  match track_info with
  | JDict d => match dict_lookup (lit "index") d with Some (JNum i) => Some i | _ => None end
  | _ => None
  end.

(** The "index" entry of a track as the snapshot holds it, when it is an
    integer. *)
Definition record_index (r : record) : option Z :=
  match record_lookup (lit "index") r with
  | Some (Plain (JNum i)) => Some i
  | _ => None
  end.

(** The Spotify items that are tracks: the "track" entry is there, is
    truthy, and its "type" is "track". *)
Definition kept (track_item : json) : bool :=
  match py_get track_item (lit "track") (JDict []) with
  | Ok track_data =>
      truthy track_data
      && match py_get track_data (lit "type") JNull with
         | Ok ty => is_str ty (lit "track")
         | Raise _ => false
         end
  | Raise _ => false
  end.

(** [enumerate(l, start)] *)
Fixpoint enumerate (start : Z) (l : list json) : list (Z * json) :=
  match l with
  | [] => []
  | x :: rest => (start, x) :: enumerate (start + 1) rest
  end.

(** [track_info] is what [process_track] made of the item [p.2] at the
    position [p.1], and carries that position as its "index". *)
Definition spotify_track_of (env : Env) (self : Spotify.indexer) (track_info : json)
    (p : Z * json) : Prop :=
  index_of track_info = Some p.1
  /\ exists w w', Spotify.process_track env self p.2 p.1 w = (Ok track_info, w').

Definition apple_track_of (env : Env) (self : Apple.indexer) (track_info : json)
    (p : Z * json) : Prop :=
  index_of track_info = Some p.1
  /\ exists w w', Apple.process_track env self p.2 p.1 w = (Ok track_info, w').

(** The tracks embedded in the playlist details of Apple Music: the path
    [index_playlist] follows to its [tracks_data], then the items the loop
    draws from it. *)
Definition embedded_tracks (playlist_data : json) : res (list json) :=
  let? data := py_get playlist_data (lit "data") (JList [JDict []]) in
  let? playlist_info := py_index0 data in
  let? playlist_attributes := py_get playlist_info (lit "attributes") (JDict []) in
  let? p_tracks := py_get playlist_attributes (lit "tracks") (JDict []) in
  let? tracks_data := py_get p_tracks (lit "data") (JList []) in
  py_iter tracks_data.
(** Sample data of Apple Music: a track without previews and artwork
    entries, and playlist details that embed two such tracks. *)
Definition apple_sample_track (name : string) : json :=
  JDict [ (lit "id", JStr (lit name));
          (lit "type", JStr (lit "songs"));
          (lit "attributes",
           JDict [ (lit "name", JStr (lit name));
                   (lit "artistName", JStr (lit "Artist"));
                   (lit "albumName", JStr (lit "Album"));
                   (lit "durationInMillis", JNum 200000);
                   (lit "genreNames", JList [JStr (lit "Pop")]) ]) ].

Definition apple_sample_details : json :=
  JDict [ (lit "data",
           JList [ JDict [ (lit "id", JStr (lit "pl.u-1"));
                           (lit "attributes",
                            JDict [ (lit "name", JStr (lit "Mix"));
                                    (lit "tracks",
                                     JDict [ (lit "data",
                                              JList [ apple_sample_track "x";
                                                      apple_sample_track "y" ]) ]) ]) ] ]) ].

(** An Apple Music track for which the API sends no duration, and
    playlist details that embed a track with a duration and one
    without. *)
Definition apple_track_without_duration (name : string) : json :=
  JDict [ (lit "id", JStr (lit name));
          (lit "type", JStr (lit "songs"));
          (lit "attributes",
           JDict [ (lit "name", JStr (lit name));
                   (lit "artistName", JStr (lit "Artist"));
                   (lit "albumName", JStr (lit "Album"));
                   (lit "genreNames", JList [JStr (lit "Pop")]) ]) ].

Definition apple_details_of (items : list json) : json :=
  JDict [ (lit "data",
           JList [ JDict [ (lit "id", JStr (lit "pl.u-1"));
                           (lit "attributes",
                            JDict [ (lit "name", JStr (lit "Mix"));
                                    (lit "tracks",
                                     JDict [ (lit "data", JList items) ]) ]) ] ]) ].

(** A Spotify playlist item whose track is no longer available: the API
    sends a null track. *)
Definition unavailable_item : json :=
  JDict [ (lit "added_at", JStr (lit "2024-05-01T10:00:00Z"));
          (lit "added_by", JDict [(lit "id", JStr (lit "user1"))]);
          (lit "track", JNull) ].

(** A Spotify playlist item of an old playlist: the API sends a null
    "added_by". *)
Definition item_without_adder : json :=
  JDict [ (lit "added_at", JNull);
          (lit "added_by", JNull);
          (lit "track",
           JDict [ (lit "id", JStr (lit "t1"));
                   (lit "name", JStr (lit "Song"));
                   (lit "type", JStr (lit "track")) ]) ].

(** An Apple Music track that has no preview: the list of previews is
    empty. *)
Definition track_without_previews : json :=
  JDict [ (lit "id", JStr (lit "1"));
          (lit "type", JStr (lit "songs"));
          (lit "attributes",
           JDict [ (lit "name", JStr (lit "Song"));
                   (lit "artistName", JStr (lit "Artist"));
                   (lit "previews", JList []) ]) ].

(** ** Vocabulary of the further properties *)

(** Every file of [w] is still there in [w'], with its content. *)
Definition files_kept (w w' : World) : Prop :=
  forall p d, files w !! p = Some d -> files w' !! p = Some d.

(** Every path that exists in [w] still exists in [w']. *)
Definition paths_kept (w w' : World) : Prop :=
  forall p, is_Some (files w !! p) -> is_Some (files w' !! p).

(** The log of [w'] is the log of [w] followed by at most [n] requests. *)
Definition fetches_within (n : nat) (w w' : World) : Prop :=
  exists new, net_log w' = net_log w ++ new /\ (length new <= n)%nat.

(** What a computation may do to the world: it never removes a path; with
    [keep] it never changes a file either; and it sends at most [n]
    requests. *)
Definition effect (keep : bool) (n : nat) (w w' : World) : Prop :=
  paths_kept w w' /\ (keep = true -> files_kept w w') /\ fetches_within n w w'.

Definition within {A} (keep : bool) (n : nat) (c : M A) : Prop :=
  forall w, effect keep n w (c w).2.

(** The "artwork_local_path" of a normalized track is null, or the path of
    a file that exists in [w]. *)
Definition artwork_on_disk (w : World) (track_info : json) : Prop :=
  match track_info with
  | JDict d =>
      match dict_lookup (lit "artwork_local_path") d with
      | Some JNull => True
      | Some (JStr p) => is_Some (files w !! p)
      | _ => False
      end
  | _ => False
  end.

(** The same for a track as the snapshot holds it, where a null may have
    become not-a-number. *)
Definition stored_artwork_on_disk (w : World) (r : record) : Prop :=
  match record_lookup (lit "artwork_local_path") r with
  | Some (Plain JNull) | Some NaN => True
  | Some (Plain (JStr p)) => is_Some (files w !! p)
  | _ => False
  end.

(** A cell that holds a string or a null. *)
Definition path_or_null (c : option json) : bool :=
  match c with Some JNull | Some (JStr _) => true | _ => false end.

(** A Spotify track item whose album has one image. *)
Definition sample_item_with_art (name : string) (image_url : string) : json :=
  JDict [ (lit "added_at", JStr (lit "2024-05-01T10:00:00Z"));
          (lit "added_by", JDict [(lit "id", JStr (lit "user1"))]);
          (lit "track",
           JDict [ (lit "id", JStr (lit name));
                   (lit "name", JStr (lit name));
                   (lit "type", JStr (lit "track"));
                   (lit "duration_ms", JNum 180000);
                   (lit "artists", JList [JDict [(lit "name", JStr (lit "AC/DC"))]]);
                   (lit "album",
                    JDict [ (lit "name", JStr (lit "Album"));
                            (lit "images",
                             JList [JDict [(lit "url", JStr (lit image_url))]]) ]) ]) ].

(** A character that cannot leave the directory a file name is joined to:
    not a slash, not a backslash, not the null character. *)
Definition plain_char (c : N) : bool :=
  negb ((c =? ch "/")%N || (c =? ch "\")%N || (c =? 0)%N).
(** A track of Apple Music whose "durationInMillis" is an integer of at
    most 64 bits. *)
Definition has_int64_duration (track : json) : Prop :=
  exists n,
    Apple.attribute track (lit "durationInMillis") JNull = Ok (JNum n)
    /\ fits_int64 n = true.

(** * Properties *)

(** ** Facts on the string operations *)

Section StrFacts.
Implicit Types (s p r sep sub a b : list N).

Lemma starts_with_prefix p s : starts_with p s = true <-> exists r, s = p ++ r.
Proof.
  revert s; induction p as [|x p IH]; intros s; simpl.
  - split; eauto.
  - destruct s as [|y s]; simpl.
    + split; [done | intros [r Hr]; discriminate].
    + rewrite andb_true_iff, N.eqb_eq, IH. split.
      * intros [-> [r ->]]. eauto.
      * intros [r Hr]. injection Hr as -> ->. eauto.
Qed.

Lemma find_here sub s : starts_with sub s = true -> find sub s = Some 0%nat.
Proof. intros H. destruct s; simpl; rewrite H; reflexivity. Qed.

Lemma find_Some sub s i :
  find sub s = Some i -> exists a b, s = a ++ sub ++ b /\ length a = i.
Proof.
  revert i; induction s as [|c s IH]; intros i; simpl.
  - destruct (starts_with sub []) eqn:E; [|done].
    intros [= <-]. apply starts_with_prefix in E as [r Hr].
    exists [], r. split; [exact Hr | reflexivity].
  - destruct (starts_with sub (c :: s)) eqn:E.
    + intros [= <-]. apply starts_with_prefix in E as [r Hr].
      exists [], r. split; [exact Hr | reflexivity].
    + destruct (find sub s) as [j|] eqn:F; simpl; [|done].
      intros [= <-]. destruct (IH j eq_refl) as (a & b & -> & Hl).
      exists (c :: a), b. split; [reflexivity | simpl; by rewrite Hl].
Qed.

Lemma find_first sub a b :
  exists i, find sub (a ++ sub ++ b) = Some i /\ (i <= length a)%nat.
Proof.
  induction a as [|c a IH]; simpl app.
  - exists 0%nat. split; [|done]. apply find_here, starts_with_prefix. eauto.
  - simpl. destruct (starts_with sub (c :: a ++ sub ++ b)).
    + exists 0%nat. split; [done | lia].
    + destruct IH as (i & -> & Hi). exists (S i). split; [done | simpl; lia].
Qed.

Lemma contains_iff sub s :
  contains sub s = true <-> exists a b, s = a ++ sub ++ b.
Proof.
  unfold contains. split.
  - destruct (find sub s) as [i|] eqn:F; [|done]. intros _.
    destruct (find_Some _ _ _ F) as (a & b & ? & _). eauto.
  - intros (a & b & ->). destruct (find_first sub a b) as (i & -> & _). done.
Qed.

Lemma contains_char c s : contains [c] s = true <-> c ∈ s.
Proof.
  rewrite contains_iff. split.
  - intros (a & b & ->). set_solver.
  - intros H. apply list_elem_of_split in H as (a & b & ->). by exists a, b.
Qed.

Lemma not_contains_find sub s : contains sub s = false -> find sub s = None.
Proof. unfold contains. by destruct (find sub s). Qed.

(** The scan of [split] does not depend on the fuel once there is enough. *)
Lemma split_go_enough sep s n m :
  sep <> [] -> (length s <= n)%nat -> (length s <= m)%nat ->
  split_go n sep s = split_go m sep s.
Proof.
  intros Hsep. revert m s. induction n as [|n IH]; intros m s Hn Hm.
  - destruct s; [|simpl in Hn; lia].
    destruct m; simpl; [done|]. destruct sep; [done|]. reflexivity.
  - destruct m as [|m].
    + destruct s; [|simpl in Hm; lia]. simpl. destruct sep; [done|]. reflexivity.
    + simpl. destruct (find sep s) as [i|] eqn:F; [|done]. f_equal.
      destruct (find_Some _ _ _ F) as (a & b & -> & Hl).
      assert (length sep <> 0)%nat by (destruct sep; simpl; [done | lia]).
      rewrite !length_app in Hn, Hm.
      apply IH; rewrite length_drop, !length_app; lia.
Qed.

Lemma split_unfold sep s :
  sep <> [] ->
  split sep s =
    match find sep s with
    | None => [s]
    | Some i => take i s :: split sep (drop (i + length sep) s)
    end.
Proof.
  intros Hsep. unfold split. destruct (length s) as [|n] eqn:L.
  - destruct s; [|done]. simpl. destruct sep; [done|]. reflexivity.
  - simpl. destruct (find sep s) as [i|] eqn:F; [|done]. f_equal.
    destruct (find_Some _ _ _ F) as (a & b & -> & Hl).
    assert (length sep <> 0)%nat by (destruct sep; simpl; [done | lia]).
    rewrite !length_app in L.
    apply split_go_enough; [done | |]; rewrite ?length_drop, !length_app; lia.
Qed.

(** One round of the scan, on a string cut at its first occurrence. *)
Lemma split_cut sep s i :
  sep <> [] -> find sep s = Some i ->
  exists a b, s = a ++ sep ++ b /\ length a = i /\ split sep s = a :: split sep b.
Proof.
  intros Hsep F. destruct (find_Some _ _ _ F) as (a & b & -> & Hl).
  exists a, b. split; [done|]. split; [done|].
  rewrite split_unfold, F by done. f_equal.
  - rewrite take_app_length'; done.
  - f_equal. rewrite <- Hl, <- length_app, app_assoc, drop_app_length. done.
Qed.

Lemma split_nonempty sep s : split sep s <> [].
Proof. unfold split. destruct (length s); simpl; [done|]. by destruct (find sep s). Qed.

Lemma last_of_cons x l : l <> [] -> last_of (x :: l) = last_of l.
Proof. unfold last_of. destruct l; [done|]. reflexivity. Qed.

Lemma split_none sep s : sep <> [] -> contains sep s = false -> split sep s = [s].
Proof. intros Hsep H. by rewrite split_unfold, (not_contains_find _ _ H). Qed.

Lemma unborderedb_sound sep : unborderedb sep = true -> unbordered sep.
Proof.
  unfold unborderedb. rewrite forallb_forall. intros H u v w Hu Hv Hnu Hnv.
  assert (In (length v) (seq 1 (length sep - 1))) as Hin.
  { apply in_seq. rewrite Hu at 1. rewrite length_app.
    destruct u, v; simpl in *; try done; lia. }
  apply H in Hin. apply negb_true_iff, bool_decide_eq_false in Hin. apply Hin.
  rewrite Hv at 1. rewrite take_app_length.
  rewrite Hu at 1 2. rewrite length_app.
  replace (length u + length v - length v)%nat with (length u) by lia.
  by rewrite drop_app_length.
Qed.

(** After the last occurrence of an unbordered separator comes the last
    piece. *)
Lemma last_split sep p r :
  sep <> [] -> unbordered sep -> contains sep r = false ->
  last_of (split sep (p ++ sep ++ r)) = r.
Proof.
  intros Hsep Hub Hr.
  remember (length p) as n eqn:Hn. revert p Hn.
  induction n as [n IH] using lt_wf_ind. intros p Hn.
  destruct (find_first sep p r) as (i & F & Hi).
  destruct (split_cut _ _ _ Hsep F) as (a & b & E & Hl & ->).
  rewrite last_of_cons by apply split_nonempty.
  apply app_eq_app in E as [l [[-> E]|[-> E]]].
  - (* p = a ++ l *)
    destruct l as [|c l].
    + simpl in E. apply app_inv_head in E as ->.
      rewrite split_none by done. reflexivity.
    + apply app_eq_app in E as [l' [[E1 E2]|[E1 ->]]].
      * destruct l' as [|d l'].
        { simpl in E2. subst b. apply (IH 0%nat) with (p := []); [|done].
          rewrite Hn, length_app. simpl. lia. }
        exfalso.
        assert (exists w, sep = (d :: l') ++ w) as [w Hw].
        { assert (length (d :: l') < length sep)%nat as Hlt
            by (rewrite E1, length_app; simpl; lia).
          exists (drop (length (d :: l')) sep).
          rewrite <- (take_drop (length (d :: l')) sep) at 1. f_equal.
          apply (f_equal (take (length (d :: l')))) in E2.
          rewrite take_app_length in E2.
          rewrite take_app_le in E2 by lia. exact E2. }
        apply (Hub (c :: l) (d :: l') w); done.
      * apply (IH (length l')) with (p := l'); [|done].
        rewrite Hn, length_app, E1, length_app.
        destruct sep; [done|]. simpl. lia.
  - rewrite length_app in Hl.
    destruct l; [|simpl in Hl; lia].
    simpl in E. apply app_inv_head in E as ->.
    rewrite split_none by done. reflexivity.
Qed.

Lemma split_last_suffix sep s :
  sep <> [] -> contains sep s = true ->
  exists a, s = a ++ sep ++ last_of (split sep s).
Proof.
  intros Hsep. remember (length s) as n eqn:Hn. revert s Hn.
  induction n as [n IH] using lt_wf_ind. intros s Hn Hc.
  unfold contains in Hc. destruct (find sep s) as [i|] eqn:F; [|done].
  destruct (split_cut _ _ _ Hsep F) as (a & b & -> & Hl & ->).
  rewrite last_of_cons by apply split_nonempty.
  destruct (contains sep b) eqn:Hb.
  - destruct (IH (length b)) with (s := b) as [a' Ha']; [|done|done|].
    { rewrite Hn, !length_app. destruct sep; [done|]. simpl. lia. }
    exists (a ++ sep ++ a'). rewrite Ha' at 1. by rewrite <- !app_assoc.
  - rewrite split_none by done. by exists a.
Qed.

Lemma unbordered_char c : unbordered [c].
Proof.
  intros u v w Hu _ Hnu Hnv. apply (f_equal length) in Hu.
  rewrite length_app in Hu. destruct u, v; simpl in *; try done; lia.
Qed.

Lemma not_contains_char c s : c ∉ s -> contains [c] s = false.
Proof.
  intros H. destruct (contains [c] s) eqn:E; [|done].
  by apply contains_char in E.
Qed.

(** The text after the last [c] is the last piece of a split at [c]. *)
Lemma last_split_char c pre r : c ∉ r -> last_of (split [c] (pre ++ c :: r)) = r.
Proof.
  intros H. apply (last_split [c] pre r); [done | apply unbordered_char |].
  by apply not_contains_char.
Qed.

Lemma last_component_unique c (x y x' y' : list N) :
  x ++ c :: y = x' ++ c :: y' -> c ∉ y -> c ∉ y' -> y = y'.
Proof.
  intros E Hy Hy'. apply app_eq_app in E as [l [[-> E]|[-> E]]].
  - destruct l as [|d l]; simpl in E; [congruence|].
    injection E as -> ->. exfalso. apply Hy'. set_solver.
  - destruct l as [|d l]; simpl in E; [congruence|].
    injection E as -> ->. exfalso. apply Hy. set_solver.
Qed.

(** Splitting a suffix that starts right after some [c] finds the same
    last piece as splitting the whole string. *)
Lemma last_split_suffix_char c (x y pre r : list N) :
  x ++ c :: y = pre ++ c :: r -> c ∉ r -> last_of (split [c] y) = r.
Proof.
  intros E Hr. destruct (decide (c ∈ y)) as [Hin|Hnin].
  - apply list_elem_of_split_r in Hin as (y1 & y2 & -> & Hy2).
    assert (y2 = r) as ->.
    { apply (last_component_unique c (x ++ c :: y1) y2 pre r); [|done..].
      by rewrite <- app_assoc. }
    by apply last_split_char.
  - assert (y = r) as -> by (by apply (last_component_unique c x y pre r)).
    rewrite split_none; [done | done | by apply not_contains_char].
Qed.

(** The first piece of a split at [c] is the text before the first [c]. *)
Lemma first_split_char c (x y : list N) :
  c ∉ x -> first_of (split [c] (x ++ c :: y)) = x.
Proof.
  intros Hx. destruct (find_first [c] x y) as (i & F & Hi).
  assert ([c] <> []) as Hc by done.
  change (x ++ c :: y) with (x ++ [c] ++ y).
  destruct (split_cut _ _ _ Hc F) as (a & b & E & Hl & ->).
  unfold first_of. simpl.
  apply app_eq_app in E as [l [[-> E]|[-> E]]].
  - destruct l as [|d l]; [by rewrite app_nil_r|].
    simpl in E. injection E as -> _. exfalso. apply Hx. set_solver.
  - destruct l as [|d l]; [by rewrite app_nil_r|].
    rewrite length_app in Hl. simpl in Hl. lia.
Qed.

Lemma first_split_none c (x : list N) : c ∉ x -> first_of (split [c] x) = x.
Proof.
  intros Hx. rewrite split_none; [done | done | by apply not_contains_char].
Qed.

End StrFacts.

(** ** Playlist resolver *)

Lemma marker_unbordered : unbordered (lit "playlist/").
Proof. apply unborderedb_sound. vm_compute. reflexivity. Qed.

(** C2 (amended).  The Spotify resolver looks for "playlist/": without it
    the result is null; with it, the result is the text after the last
    "playlist/" up to the first "?", which for a URL
    [p ++ "playlist/" ++ id ++ query] is [id] when [id] has no "?" and the
    marker does not occur again.  The Apple Music resolver looks for
    "/playlist/": without it the result is null; with it, the result is
    the text after the last "/" of the URL, so [id] for a URL that ends in
    "/" followed by an [id] without "/". *)
Theorem extract_playlist_id_spec :
  (forall url,
      contains (lit "playlist/") url = false ->
      Spotify.extract_playlist_id url = None)
  /\ (forall p id q,
      ch "?" ∉ id ->
      (q = [] \/ exists q', q = ch "?" :: q') ->
      contains (lit "playlist/") (id ++ q) = false ->
      Spotify.extract_playlist_id (p ++ lit "playlist/" ++ id ++ q) = Some id)
  /\ (forall url,
      contains (lit "/playlist/") url = false ->
      Apple.extract_playlist_id url = None)
  /\ (forall p id,
      ch "/" ∉ id ->
      contains (lit "/playlist/") (p ++ ch "/" :: id) = true ->
      Apple.extract_playlist_id (p ++ ch "/" :: id) = Some id).
Proof.
  repeat split.
  - intros url H. unfold Spotify.extract_playlist_id. by rewrite H.
  - intros p id q Hid Hq Hr. unfold Spotify.extract_playlist_id.
    assert (contains (lit "playlist/") (p ++ lit "playlist/" ++ id ++ q) = true) as ->
      by (apply contains_iff; eauto).
    rewrite (last_split (lit "playlist/") p (id ++ q));
      [|done | apply marker_unbordered | done].
    f_equal. change (lit "?") with [ch "?"].
    destruct Hq as [->|[q' ->]].
    + rewrite app_nil_r. by apply first_split_none.
    + by apply first_split_char.
  - intros url H. unfold Apple.extract_playlist_id. by rewrite H.
  - intros p id Hid Hc. unfold Apple.extract_playlist_id. rewrite Hc. f_equal.
    destruct (split_last_suffix (lit "/playlist/") _ ltac:(done) Hc) as [a Ha].
    change (lit "/") with [ch "/"].
    apply (last_split_suffix_char (ch "/") (a ++ lit "/playlist") _ p id); [|done].
    rewrite Ha at 2. rewrite <- app_assoc. reflexivity.
Qed.

Lemma extract_playlist_id_spec_witness :
  Spotify.extract_playlist_id
    (lit "https://open.spotify.com/" ++ lit "playlist/" ++ lit "37i9dQZF1DX" ++ lit "?si=0ee4")
  = Some (lit "37i9dQZF1DX")
  /\ Apple.extract_playlist_id
       (lit "https://music.apple.com/us/playlist/encapsulative" ++ ch "/" :: lit "pl.u-BNA6")
     = Some (lit "pl.u-BNA6").
Proof.
  destruct extract_playlist_id_spec as (_ & Hs & _ & Ha). split.
  - apply Hs.
    + vm_compute. intros H. repeat (apply elem_of_cons in H as [H|H]; [discriminate H|]).
      by apply elem_of_nil in H.
    + right. eexists. vm_compute. reflexivity.
    + vm_compute. reflexivity.
  - apply Ha.
    + vm_compute. intros H. repeat (apply elem_of_cons in H as [H|H]; [discriminate H|]).
      by apply elem_of_nil in H.
    + vm_compute. reflexivity.
Defined.

(** C2, as stated, fails: the Apple Music resolver keeps the query string,
    and the Spotify resolver accepts a URL without "/playlist/". *)
Lemma extract_playlist_id_counterexample :
  Apple.extract_playlist_id (lit "https://music.apple.com/us/playlist/mix/pl.u-1?l=en")
    = Some (lit "pl.u-1?l=en")
  /\ Apple.extract_playlist_id (lit "https://music.apple.com/us/playlist/mix/pl.u-1?l=en")
     <> Some (lit "pl.u-1")
  /\ contains (lit "/playlist/") (lit "https://example.com/myplaylist/abc") = false
  /\ Spotify.extract_playlist_id (lit "https://example.com/myplaylist/abc")
     = Some (lit "abc").
Proof.
  split; [vm_compute; reflexivity|].
  split; [vm_compute; discriminate|].
  split; vm_compute; reflexivity.
Qed.

(** ** Artwork file names *)

Section Filenames.
Context (env : Env).
Let ok := fun c => filename_char_ok env c = true.

Lemma underscore_ok : filename_char_ok env (ch "_") = true.
Proof. unfold filename_char_ok. apply orb_true_r. Qed.

Lemma collapse_runs_ok s b :
  Forall (fun c => (isword env c || isspace env c || (c =? ch "-")%N) = true) s ->
  Forall ok (Spotify.collapse_runs env b s).
Proof.
  revert b. induction s as [|c s IH]; intros b H; simpl; [constructor|].
  inversion H as [|? ? Hc Hs]; subst.
  destruct ((c =? ch "-")%N || isspace env c) eqn:E.
  - destruct b; [by apply IH|]. constructor; [apply underscore_ok | by apply IH].
  - constructor; [|by apply IH].
    apply orb_false_iff in E as [E1 E2]. rewrite E1, E2 in Hc.
    rewrite !orb_false_r in Hc. unfold isword in Hc. unfold ok, filename_char_ok.
    apply orb_true_iff in Hc as [-> | ->]; [done|]. by rewrite orb_true_r.
Qed.

Lemma split_go_Forall (P : N -> Prop) n sep s :
  Forall P s -> Forall (Forall P) (split_go n sep s).
Proof.
  revert s. induction n as [|n IH]; intros s H; simpl.
  - by constructor.
  - destruct (find sep s); [|by constructor].
    constructor; [by apply Forall_take | apply IH; by apply Forall_drop].
Qed.

Lemma join_Forall (P : N -> Prop) new pieces :
  Forall P new -> Forall (Forall P) pieces -> Forall P (join new pieces).
Proof.
  intros Hn. induction pieces as [|p rest IH]; intros H; simpl; [constructor|].
  inversion H; subst. destruct rest; [done|].
  apply Forall_app. split; [done|]. apply Forall_app. split; [done|]. by apply IH.
Qed.

Lemma replace_Forall (P : N -> Prop) old new s :
  Forall P new -> Forall P s -> Forall P (replace old new s).
Proof. intros Hn Hs. apply join_Forall; [done|]. by apply split_go_Forall. Qed.

Lemma lstrip_Forall (P : N -> Prop) s : Forall P s -> Forall P (Apple.lstrip env s).
Proof.
  induction s as [|c s IH]; intros H; simpl; [done|].
  destruct (isspace env c); [|done]. inversion H; subst. by apply IH.
Qed.

Lemma rstrip_Forall (P : N -> Prop) s : Forall P s -> Forall P (Apple.rstrip env s).
Proof.
  intros H. unfold Apple.rstrip. apply Forall_reverse, lstrip_Forall.
  by apply Forall_reverse.
Qed.

Lemma jpg_length stem : (length stem <= 100 -> length (stem ++ lit ".jpg") <= 104)%nat.
Proof. rewrite length_app. simpl. lia. Qed.

End Filenames.

(** C3.  Whatever the track index, the artist and the title are, the
    artwork file name built by either indexer is a stem of at most 100
    characters, each of them alphanumeric, a space, a hyphen or an
    underscore, followed by ".jpg"; its length is at most 104. *)
Theorem artwork_filename_safe (env : Env) (track_index : Z) (artist title : list N) :
  safe_filename env (Spotify.artwork_filename env track_index artist title)
  /\ (length (Spotify.artwork_filename env track_index artist title) <= 104)%nat
  /\ safe_filename env (Apple.artwork_filename env track_index artist title)
  /\ (length (Apple.artwork_filename env track_index artist title) <= 104)%nat.
Proof.
  assert (forall s : list N, length (take 100 s) <= 100)%nat as Htake
    by (intros s; rewrite length_take; lia).
  split; [|split; [|split]].
  - eexists. split; [reflexivity|]. split; [|apply Htake].
    apply Forall_take, collapse_runs_ok. unfold Spotify.strip_special.
    apply Forall_forall. intros c Hc. apply list_elem_of_In, filter_In in Hc. tauto.
  - apply jpg_length, Htake.
  - eexists. split; [reflexivity|]. split; [|apply Htake].
    apply Forall_take, replace_Forall.
    + repeat constructor.
    + apply rstrip_Forall. apply Forall_forall. intros c Hc.
      apply list_elem_of_In, filter_In in Hc. unfold filename_char_ok. tauto.
  - apply jpg_length, Htake.
Qed.

Example spotify_filename_acdc :
  Spotify.artwork_filename (ascii_env offline) 7 (lit "AC/DC") (lit "Back In  Black - Live!")
  = lit "007_ACDC_Back_In_Black_Live.jpg".
Proof. vm_compute. reflexivity. Qed.

Example apple_filename_acdc :
  Apple.artwork_filename (ascii_env offline) 7 (lit "AC/DC") (lit "Back In  Black - Live! ")
  = lit "007_ACDC_Back_In__Black_-_Live.jpg".
Proof. vm_compute. reflexivity. Qed.

(** ** Artwork downloads *)

Section Downloads.
Context (env : Env).

Lemma bind_unfold {A B} (c : M A) (k : A -> M B) w :
  bind c k w = match c w with
               | (Ok a, w') => k a w'
               | (Raise e, w') => (Raise e, w')
               end.
Proof. reflexivity. Qed.

Lemma requests_get_str u hs ps w :
  requests_get env (JStr u) hs ps w =
    (Ok match net env (net_log w) {| req_url := u; req_headers := hs; req_params := ps |} with
        | NetError => None
        | Reply r => Some r
        end,
     logged {| req_url := u; req_headers := hs; req_params := ps |} w).
Proof. unfold requests_get. by destruct (net env _ _). Qed.

(** A call that finds the file does nothing. *)
Lemma spotify_download_present self url filename w :
  truthy url = true ->
  is_Some (files w !! path_join (Spotify.images_dir self) filename) ->
  Spotify.download_artwork env self url filename w
  = (Ok (JStr (path_join (Spotify.images_dir self) filename)), w).
Proof.
  intros Hu Hf. unfold Spotify.download_artwork. rewrite Hu. simpl.
  unfold bind, path_exists. by rewrite bool_decide_eq_true_2.
Qed.

(** A call that does not find the file and whose fetch succeeds. *)
Lemma spotify_download_fresh self u filename w r :
  u <> [] ->
  files w !! path_join (Spotify.images_dir self) filename = None ->
  net env (net_log w) (image_request u) = Reply r ->
  raises_for_status r = false ->
  Spotify.download_artwork env self (JStr u) filename w
  = (Ok (JStr (path_join (Spotify.images_dir self) filename)),
     stored (path_join (Spotify.images_dir self) filename) (Image (content r))
       (logged (image_request u) w)).
Proof.
  intros Hu Hf Hn Hs. unfold Spotify.download_artwork.
  destruct u as [|c u]; [done|]. simpl.
  unfold bind at 1. unfold path_exists at 1.
  rewrite bool_decide_eq_false_2 by (rewrite Hf; by intros [? ?]).
  rewrite bind_unfold, requests_get_str. fold (image_request (c :: u)).
  rewrite Hn, Hs. reflexivity.
Qed.

End Downloads.

(** C8 (amended).  For a non-empty artwork URL: a call of the Spotify
    downloader that finds the destination file performs no fetch and no
    write and returns its path; hence, when the file is absent at first and
    the first fetch succeeds, two calls with the same file name perform
    exactly one fetch and the second call returns the same path and
    leaves the world as it found it. *)
Theorem spotify_download_artwork_reuse (env : Env) (self : Spotify.indexer)
    (u filename : list N) (w : World) :
  u <> [] ->
  let file_path := path_join (Spotify.images_dir self) filename in
  (is_Some (files w !! file_path) ->
   Spotify.download_artwork env self (JStr u) filename w = (Ok (JStr file_path), w))
  /\ (files w !! file_path = None ->
      forall r,
        net env (net_log w) (image_request u) = Reply r ->
        raises_for_status r = false ->
        let w1 := stored file_path (Image (content r)) (logged (image_request u) w) in
        Spotify.download_artwork env self (JStr u) filename w = (Ok (JStr file_path), w1)
        /\ Spotify.download_artwork env self (JStr u) filename w1 = (Ok (JStr file_path), w1)
        /\ net_log w1 = net_log w ++ [image_request u]).
Proof.
  intros Hu file_path. split.
  - intros Hf. apply spotify_download_present; [by destruct u | done].
  - intros Hf r Hn Hs w1. split; [|split].
    + by apply spotify_download_fresh.
    + apply spotify_download_present; [by destruct u |].
      unfold w1, stored. simpl. rewrite lookup_insert_eq. by eexists.
    + reflexivity.
Qed.

Lemma spotify_download_artwork_reuse_witness :
  let env := ascii_env (image_server [x89; x50; x4e; x47]) in
  let self := Spotify.init (lit "token") in
  let url := JStr (lit "https://i.scdn.co/image/ab67616d") in
  let name := lit "001_Artist_Title.jpg" in
  exists w1,
    Spotify.download_artwork env self url name empty_world
      = (Ok (JStr (lit "playlist_images/001_Artist_Title.jpg")), w1)
    /\ Spotify.download_artwork env self url name w1
      = (Ok (JStr (lit "playlist_images/001_Artist_Title.jpg")), w1)
    /\ length (net_log w1) = 1%nat.
Proof.
  intros env self url name.
  assert (lit "https://i.scdn.co/image/ab67616d" <> []) as Hu by done.
  destruct (spotify_download_artwork_reuse env self _ name empty_world Hu) as [_ H].
  destruct (H eq_refl _ eq_refl eq_refl) as (H1 & H2 & H3).
  eexists. split; [exact H1|]. split; [exact H2|]. by rewrite H3.
Defined.

(** C8, as stated, fails when the first fetch fails: nothing is written
    and the second call fetches again, so two fetches are made. *)
Lemma spotify_download_twice_offline :
  let env := ascii_env offline in
  let self := Spotify.init (lit "token") in
  let url := JStr (lit "https://i.scdn.co/image/ab67616d") in
  let name := lit "001_Artist_Title.jpg" in
  let first := Spotify.download_artwork env self url name empty_world in
  let second := Spotify.download_artwork env self url name first.2 in
  first.1 = Ok JNull /\ second.1 = Ok JNull
  /\ net_log second.2
     = [image_request (lit "https://i.scdn.co/image/ab67616d");
        image_request (lit "https://i.scdn.co/image/ab67616d")].
Proof. vm_compute. auto. Qed.

(** C9 (amended).  For an Apple Music artwork URL that contains
    "{w}x{h}", the downloader always sends one request, for the URL with the
    placeholder replaced by "1200x1200", whatever files exist; when that
    fetch succeeds it writes the destination file, replacing the file that
    may be there, and returns its path; when it fails nothing is written
    and the result is null. *)
Theorem apple_download_artwork_fetches (env : Env) (self : Apple.indexer)
    (u filename : list N) (w : World) :
  contains (lit "{w}x{h}") u = true ->
  let rq := image_request (replace (lit "{w}x{h}") (lit "1200x1200") u) in
  let file_path := path_join (Apple.images_dir self) filename in
  Apple.download_artwork env self (JStr u) filename w
  = match net env (net_log w) rq with
    | NetError => (Ok JNull, logged rq w)
    | Reply r =>
        if raises_for_status r then (Ok JNull, logged rq w)
        else (Ok (JStr file_path), stored file_path (Image (content r)) (logged rq w))
    end.
Proof.
  intros Hc rq file_path. unfold Apple.download_artwork.
  destruct u as [|c u]; [discriminate Hc|]. change (negb (truthy (JStr (c :: u)))) with false. cbv iota.
  unfold bind, lift. simpl py_in. rewrite Hc. simpl py_replace. cbv iota beta.
  rewrite requests_get_str. subst rq file_path. unfold image_request.
  destruct (net env _ _) as [|r]; [reflexivity|].
  destruct (raises_for_status r); reflexivity.
Qed.

Lemma apple_download_artwork_fetches_witness :
  let env := ascii_env (image_server [x89; x50]) in
  let self := Apple.init (lit "token") (lit "us") in
  let w := stored (lit "playlist_images/001_a_b.jpg") (Image [x00]) empty_world in
  exists w',
    Apple.download_artwork env self (JStr (lit "https://is1.mzstatic.com/t/{w}x{h}bb.jpg"))
      (lit "001_a_b.jpg") w
    = (Ok (JStr (lit "playlist_images/001_a_b.jpg")), w')
    /\ net_log w' = [image_request (lit "https://is1.mzstatic.com/t/1200x1200bb.jpg")]
    /\ files w' !! lit "playlist_images/001_a_b.jpg" = Some (Image [x89; x50]).
Proof.
  intros env self w. eexists. split; [|split].
  - rewrite (apple_download_artwork_fetches env self
               (lit "https://is1.mzstatic.com/t/{w}x{h}bb.jpg") _ w eq_refl).
    reflexivity.
  - vm_compute. reflexivity.
  - vm_compute. reflexivity.
Defined.

(** C9, as stated, fails when the fetch fails: the request is sent but no
    file is written. *)
Lemma apple_download_offline_no_write :
  let env := ascii_env offline in
  let self := Apple.init (lit "token") (lit "us") in
  let out :=
    Apple.download_artwork env self (JStr (lit "https://is1.mzstatic.com/t/{w}x{h}bb.jpg"))
      (lit "001_a_b.jpg") empty_world in
  out.1 = Ok JNull
  /\ files out.2 !! lit "playlist_images/001_a_b.jpg" = None
  /\ net_log out.2 = [image_request (lit "https://is1.mzstatic.com/t/1200x1200bb.jpg")].
Proof. vm_compute. auto. Qed.

(** ** The track lister *)

Section Lister.
Context (env : Env) (self : Spotify.indexer) (url : list N).

Lemma lister_step_page fuel offset acc w items more :
  answers env (tracks_request self url offset) items more ->
  Spotify.get_playlist_tracks_loop env (S fuel) self url offset acc w
  = match items with
    | [] => (Ok (Some acc), logged (tracks_request self url offset) w)
    | _ :: _ =>
        if more then
          Spotify.get_playlist_tracks_loop env fuel self url (offset + 100) (acc ++ items)
            (logged (tracks_request self url offset) w)
        else (Ok (Some (acc ++ items)), logged (tracks_request self url offset) w)
    end.
Proof.
  intros H. destruct (H (net_log w)) as (r & Hr & Hs & Hi & next & Hn & Hm).
  simpl. rewrite bind_unfold, requests_get_str. fold (tracks_request self url offset).
  rewrite Hr, Hs. unfold bind, lift. rewrite Hi.
  destruct items as [|x items]; [reflexivity|]. simpl. rewrite Hn, Hm.
  destruct more; reflexivity.
Qed.

Lemma lister_step_fail fuel offset acc w :
  fails env (tracks_request self url offset) ->
  Spotify.get_playlist_tracks_loop env (S fuel) self url offset acc w
  = (Ok (Some acc), logged (tracks_request self url offset) w).
Proof.
  intros H. specialize (H (net_log w)).
  simpl. rewrite bind_unfold, requests_get_str. fold (tracks_request self url offset).
  destruct (net env (net_log w) (tracks_request self url offset)) as [|r]; [reflexivity|].
  by rewrite H.
Qed.

Lemma lister_from pages : forall (k : nat) acc last fuel w,
  (forall (j : nat) items, pages !! j = Some items ->
     items <> [] /\ answers env (tracks_request self url (100 * Z.of_nat (k + j))) items true) ->
  ends env (tracks_request self url (100 * Z.of_nat (k + length pages))) last ->
  (length pages < fuel)%nat ->
  exists w',
    Spotify.get_playlist_tracks_loop env fuel self url (100 * Z.of_nat k) acc w
      = (Ok (Some (acc ++ concat pages ++ last)), w')
    /\ files w' = files w
    /\ net_log w' = net_log w
         ++ ((fun j : nat => tracks_request self url (100 * Z.of_nat (k + j)))
               <$> seq 0 (S (length pages))).
Proof.
  induction pages as [|p pages IH]; intros k acc last fuel w Hp He Hf.
  - destruct fuel as [|fuel]; [simpl in Hf; lia|].
    simpl length in He. rewrite Nat.add_0_r in He.
    simpl length. simpl seq. simpl fmap. rewrite Nat.add_0_r.
    destruct He as [(more & Ha & Hm)|[Hfail ->]].
    + exists (logged (tracks_request self url (100 * Z.of_nat k)) w).
      split; [|split; reflexivity].
      rewrite (lister_step_page _ _ _ _ _ _ Ha).
      destruct last as [|x last]; [by rewrite app_nil_r|].
      destruct Hm as [->|?]; [reflexivity | done].
    + exists (logged (tracks_request self url (100 * Z.of_nat k)) w).
      split; [|split; reflexivity].
      rewrite (lister_step_fail _ _ _ _ Hfail). by rewrite app_nil_r.
  - destruct fuel as [|fuel]; [simpl in Hf; lia|].
    destruct (Hp 0%nat p eq_refl) as [Hne Ha]. rewrite Nat.add_0_r in Ha.
    rewrite (lister_step_page _ _ _ _ _ _ Ha).
    destruct p as [|x p]; [done|].
    replace (100 * Z.of_nat k + 100) with (100 * Z.of_nat (S k)) by lia.
    destruct (IH (S k) (acc ++ x :: p) last fuel
                (logged (tracks_request self url (100 * Z.of_nat k)) w))
      as (w' & E & Hfiles & Hlog).
    + intros j items Hj. replace (S k + j)%nat with (k + S j)%nat by lia.
      by apply Hp.
    + simpl length in He. by replace (S k + length pages)%nat with (k + S (length pages))%nat by lia.
    + simpl in Hf. lia.
    + exists w'. split; [|split].
      * rewrite E. simpl concat. do 3 f_equal.
        rewrite <- !app_assoc. simpl. by rewrite <- !app_assoc.
      * by rewrite Hfiles.
      * rewrite Hlog. simpl net_log. rewrite <- app_assoc. f_equal.
        simpl. rewrite Nat.add_0_r. f_equal. f_equal.
        -- f_equal. f_equal. lia.
        -- rewrite <- !seq_shift, !map_map. apply map_ext. intros j.
           f_equal. f_equal. lia.
Qed.

End Lister.

(** C7.  When the server answers the requests at offsets 0, 100, 200, ...
    with the non-empty pages [pages], each with a "next" marker, and the
    request after them with a page [last] that has no "next" marker or is
    empty, the track lister stops there and returns the concatenation of
    all these pages in order; it has sent one request per page, with limit
    100 and offsets increasing by 100. *)
Theorem get_playlist_tracks_concat (env : Env) (self : Spotify.indexer)
    (playlist_id : list N) (pages : list (list json)) (last : list json) (more : bool)
    (fuel : nat) (w : World) :
  let url := tracks_url self playlist_id in
  serves env self url pages ->
  answers env (tracks_request self url (100 * Z.of_nat (length pages))) last more ->
  more = false \/ last = [] ->
  (length pages < fuel)%nat ->
  exists w',
    Spotify.get_playlist_tracks env fuel self playlist_id w
      = (Ok (Some (concat (pages ++ [last]))), w')
    /\ files w' = files w
    /\ net_log w' = net_log w ++ page_requests self url (S (length pages)).
Proof.
  intros url Hs Ha Hm Hf.
  destruct (lister_from env self url pages 0 [] last fuel w) as (w' & E & ? & ?).
  - intros j items Hj. by apply Hs.
  - left. by exists more.
  - done.
  - exists w'. split; [|done].
    unfold Spotify.get_playlist_tracks. fold (tracks_url self playlist_id). fold url.
    change 0 with (100 * Z.of_nat 0). rewrite E.
    by rewrite concat_app, app_nil_l; simpl; rewrite app_nil_r.
Qed.

Lemma get_playlist_tracks_concat_witness :
  let a := sample_item "a" "track" in
  let b := sample_item "b" "track" in
  let c := sample_item "c" "track" in
  let env := ascii_env (mock_api sample_details [[a; b]; [c]] 9 []) in
  let self := Spotify.init (lit "token") in
  exists w',
    Spotify.get_playlist_tracks env 5 self (lit "PL1") empty_world = (Ok (Some [a; b; c]), w')
    /\ length (net_log w') = 2%nat.
Proof.
  intros a b c env self.
  destruct (get_playlist_tracks_concat env self (lit "PL1") [[a; b]] [c] false 5 empty_world)
    as (w' & E & _ & Hl).
  - intros k items Hk. destruct k as [|k]; [|done]. injection Hk as <-.
    split; [done|]. intros log. eexists. split; [reflexivity|].
    split; [reflexivity|]. split; [reflexivity|]. eexists. split; reflexivity.
  - intros log. eexists. split; [reflexivity|].
    split; [reflexivity|]. split; [reflexivity|]. eexists. split; reflexivity.
  - by left.
  - simpl. lia.
  - exists w'. split; [exact E|]. rewrite Hl. reflexivity.
Defined.

(** ** Runs that return: inversion of the monad *)

Section Inversion.

Lemma bind_Ok {A B} (c : M A) (k : A -> M B) w b w2 :
  bind c k w = (Ok b, w2) -> exists a w1, c w = (Ok a, w1) /\ k a w1 = (Ok b, w2).
Proof. unfold bind. destruct (c w) as [[a|e] w1]; [eauto | discriminate]. Qed.

Lemma lift_Ok {A} (r : res A) w a w1 : lift r w = (Ok a, w1) -> r = Ok a /\ w1 = w.
Proof. unfold lift. intros [= -> ->]. done. Qed.

Lemma ret_Ok {A} (a b : A) w w1 : ret a w = (Ok b, w1) -> a = b /\ w1 = w.
Proof. unfold ret. intros [= -> ->]. done. Qed.

Lemma write_file_Ok p d w u w' : write_file p d w = (Ok u, w') -> w' = stored p d w.
Proof. unfold write_file. by intros [= _ <-]. Qed.

End Inversion.

Ltac bind_inv H :=
  let a := fresh "v" in
  let w := fresh "w" in
  let Hc := fresh "Hc" in
  apply bind_Ok in H as (a & w & Hc & H); cbv beta zeta in H.

Ltac case_if H :=
  match type of H with
  | (if ?b then _ else _) _ = _ => destruct b eqn:?
  end.

Ltac lift_inv H :=
  match type of H with
  | bind (lift _) _ _ = (Ok _, _) =>
      let a := fresh "v" in
      let w := fresh "w" in
      let Hc := fresh "Hc" in
      apply bind_Ok in H as (a & w & Hc & H);
      apply lift_Ok in Hc as [Hc ->];
      cbv beta zeta in H
  end.

Ltac case_match_in H :=
  match type of H with
  | (match ?x with _ => _ end) _ = _ => destruct x eqn:?
  end.

Section FetchErrors.
Context (env : Env).



End FetchErrors.



Lemma spotify_index_tracks_empty env self playlist_id playlist_metadata w :
  Spotify.index_tracks env self playlist_id playlist_metadata [] w = (Raise KeyError, w).
Proof. reflexivity. Qed.

(** What a run of [index_tracks] that returns has done. *)
Lemma spotify_index_tracks_Ok env self playlist_id meta raw w result w' :
  Spotify.index_tracks env self playlist_id meta raw w = (Ok result, w') ->
  exists path out stats w1,
    result = JStr path
    /\ Spotify.process_all env self raw 1 [] w = (Ok out, w1)
    /\ Spotify.summarize env out = Ok stats
    /\ w' = stored path
              (SpotifySnapshot
                 {| playlist_metadata := meta;
                    tracks := Spotify.track_records env out;
                    summary := stats |}) w1.
Proof.
  unfold Spotify.index_tracks. intros H.
  apply bind_Ok in H as (out & w1 & Hp & H).
  apply bind_Ok in H as (stats & w2 & Hs & H).
  apply lift_Ok in Hs as [Hs ->].
  apply bind_Ok in H as (u & w3 & Hw & H).
  apply write_file_Ok in Hw. apply ret_Ok in H as [<- Hw']. subst.
  by eexists _, out, stats, w1.
Qed.




(** With the first track-list request failing, the run ends in
    [KeyError] and writes no file. *)
Example index_playlist_first_page_fails :
  let env := ascii_env (mock_api sample_details [[sample_item "a" "track"]] 0 []) in
  let out :=
    Spotify.index_playlist env 5 (Spotify.init (lit "token"))
      (lit "https://open.spotify.com/playlist/PL1") empty_world in
  out.1 = Raise KeyError /\ files out.2 = ∅.
Proof. vm_compute. split; reflexivity. Qed.


(** ** Normalization of the track list *)

Section Tracks.
Context (env : Env).

Lemma spotify_process_track_Ok self item idx w info w' :
  Spotify.process_track env self item idx w = (Ok info, w') ->
  if kept item then truthy info = true /\ index_of info = Some idx else info = JNull.
Proof.
  unfold Spotify.process_track, kept. intros H.
  bind_inv H. apply lift_Ok in Hc as [-> ->].
  destruct (truthy v) eqn:Ht; simpl in H |- *.
  2: { by apply ret_Ok in H as [<- _]. }
  bind_inv H. apply lift_Ok in Hc as [-> ->].
  destruct (is_str v0 (lit "track")) eqn:Hty; simpl in H |- *.
  2: { by apply ret_Ok in H as [<- _]. }
  repeat (bind_inv H; clear Hc).
  case_if H.
  - bind_inv H. clear Hc. case_if H;
      apply ret_Ok in H as [<- _]; split; reflexivity.
  - apply ret_Ok in H as [<- _]; split; reflexivity.
Qed.

Lemma spotify_process_all_Ok self items : forall idx acc w out w',
  Spotify.process_all env self items idx acc w = (Ok out, w') ->
  exists new,
    out = acc ++ new
    /\ Forall2 (spotify_track_of env self) new
         (List.filter (fun p => kept p.2) (enumerate idx items)).
Proof.
  induction items as [|item items IH]; intros idx acc w out w' H; simpl in H.
  - apply ret_Ok in H as [<- _]. exists []. split; [by rewrite app_nil_r | constructor].
  - do 2 lift_inv H. bind_inv H.
    apply IH in H as (new & -> & Hnew).
    pose proof (spotify_process_track_Ok _ _ _ _ _ _ Hc1) as Hk.
    simpl. destruct (kept item).
    + destruct Hk as [-> Hidx]. exists (v1 :: new). split; [by rewrite <- app_assoc|].
      constructor; [|done]. split; [done|]. simpl. eauto.
    + subst v1. simpl. by exists new.
Qed.

Lemma apple_process_track_Ok self item idx w info w' :
  Apple.process_track env self item idx w = (Ok info, w') -> index_of info = Some idx.
Proof.
  unfold Apple.process_track. intros H.
  repeat (bind_inv H; clear Hc).
  case_if H; [|by apply ret_Ok in H as [<- _]].
  bind_inv H. clear Hc.
  case_if H; [|by apply ret_Ok in H as [<- _]].
  bind_inv H. clear Hc.
  case_if H; by apply ret_Ok in H as [<- _].
Qed.

Lemma apple_process_all_Ok self items : forall idx acc w out w',
  Apple.process_all env self items idx acc w = (Ok out, w') ->
  exists new,
    out = acc ++ new /\ Forall2 (apple_track_of env self) new (enumerate idx items).
Proof.
  induction items as [|item items IH]; intros idx acc w out w' H; simpl in H.
  - apply ret_Ok in H as [<- _]. exists []. split; [by rewrite app_nil_r | constructor].
  - lift_inv H. bind_inv H.
    apply IH in H as (new & -> & Hnew).
    exists (v0 :: new). split; [by rewrite <- app_assoc|].
    constructor; [|done]. split; [|simpl; eauto].
    by apply apple_process_track_Ok in Hc0.
Qed.

End Tracks.

Lemma enumerate_lower start l : Forall (fun p : Z * json => start <= p.1) (enumerate start l).
Proof.
  revert start. induction l as [|x l IH]; intros start; simpl; constructor.
  - simpl. lia.
  - eapply Forall_impl; [apply IH|]. simpl. intros p Hp. lia.
Qed.

Lemma enumerate_sorted (f : Z * json -> bool) start l :
  StronglySorted Z.lt (fst <$> List.filter f (enumerate start l)).
Proof.
  revert start. induction l as [|x l IH]; intros start; simpl; [constructor|].
  destruct (f (start, x)); [|apply IH]. simpl. constructor; [apply IH|].
  apply Forall_fmap, Forall_forall. intros p Hp.
  apply list_elem_of_In, filter_In in Hp as [Hp _]. apply list_elem_of_In in Hp.
  pose proof (enumerate_lower (start + 1) l) as Hl.
  rewrite Forall_forall in Hl. apply Hl in Hp. simpl. lia.
Qed.

Lemma enumerate_positions start l :
  fst <$> enumerate start l = (fun k : nat => start + Z.of_nat k) <$> seq 0 (length l).
Proof.
  revert start. induction l as [|x l IH]; intros start; simpl; [done|].
  f_equal; [lia|]. rewrite IH, <- seq_shift, map_map.
  apply map_ext. intros k. lia.
Qed.

(** ** The data frame and its records *)

Section Frames.
Context (env : Env).

Lemma add_new_incl ks : forall cols k, k ∈ cols -> k ∈ add_new ks cols.
Proof.
  induction ks as [|k' ks IH]; intros cols k Hk; simpl; [done|].
  apply IH. destruct (bool_decide (k' ∈ cols)); [done|].
  apply elem_of_app. by left.
Qed.

Lemma add_new_keys ks : forall cols k, k ∈ ks -> k ∈ add_new ks cols.
Proof.
  induction ks as [|k' ks IH]; intros cols k Hk; simpl; [by apply elem_of_nil in Hk|].
  apply elem_of_cons in Hk as [->|Hk]; [|by apply IH].
  apply add_new_incl. destruct (bool_decide (k' ∈ cols)) eqn:E.
  - by apply bool_decide_eq_true in E.
  - apply elem_of_app. right. by apply list_elem_of_singleton.
Qed.

Lemma foldl_add_new_incl data : forall cols k,
  k ∈ cols -> k ∈ foldl (fun cols row => add_new (keys_of row) cols) cols data.
Proof.
  induction data as [|row data IH]; intros cols k Hk; simpl; [done|].
  by apply IH, add_new_incl.
Qed.

Lemma foldl_add_new_keys data : forall cols row k,
  row ∈ data -> k ∈ keys_of row ->
  k ∈ foldl (fun cols row => add_new (keys_of row) cols) cols data.
Proof.
  induction data as [|row' data IH]; intros cols row k Hr Hk; simpl;
    [by apply elem_of_nil in Hr|].
  apply elem_of_cons in Hr as [->|Hr]; [|by eapply IH].
  by apply foldl_add_new_incl, add_new_keys.
Qed.

(** Every key of a row is a column of the frame. *)
Lemma columns_keys data row k :
  row ∈ data -> k ∈ keys_of row -> k ∈ columns (mk_frame data).
Proof. apply foldl_add_new_keys. Qed.

Lemma record_lookup_columns (f : list N -> value) cols k :
  k ∈ cols -> record_lookup k ((fun k' => (k', f k')) <$> cols) = Some (f k).
Proof.
  induction cols as [|k' cols IH]; intros Hk; [by apply elem_of_nil in Hk|].
  simpl. destruct (bool_decide (k' = k)) eqn:E.
  - apply bool_decide_eq_true in E. by subst.
  - apply bool_decide_eq_false in E.
    apply elem_of_cons in Hk as [->|Hk]; [done | by apply IH].
Qed.

Lemma dict_lookup_keys k d v : dict_lookup k d = Some v -> k ∈ (fst <$> d).
Proof.
  induction d as [|[k' v'] d IH]; simpl; [done|].
  destruct (bool_decide (k' = k)) eqn:E.
  - apply bool_decide_eq_true in E. subst. intros _. apply elem_of_cons. by left.
  - intros H. apply elem_of_cons. right. by apply IH.
Qed.

Lemma index_of_raw info i :
  index_of info = Some i ->
  raw_cell (lit "index") info = Some (JNum i) /\ lit "index" ∈ keys_of info.
Proof.
  unfold index_of, raw_cell, keys_of. destruct info as [| | | | |d]; try done.
  destruct (dict_lookup (lit "index") d) as [v|] eqn:E; [|done].
  destruct v; try done. intros [= ->]. split; [done|].
  by eapply dict_lookup_keys.
Qed.

Lemma existsb_none {A} (f g : A -> bool) l :
  (forall x, g x = true -> f x = false) ->
  Forall (fun x => g x = true) l -> existsb f l = false.
Proof.
  intros Hfg. induction 1 as [|x l Hx Hl IH]; simpl; [done|].
  by rewrite (Hfg x Hx), IH.
Qed.

(** A column of integers without a missing cell holds the integers as
    they were given, whether they fit in 64 bits or not. *)
Lemma stored_cell_int col i n :
  Forall (fun c => is_int c = true) col -> col <> [] ->
  stored_cell env col i (Some (JNum n)) = Plain (JNum n).
Proof.
  intros Hall Hne. unfold stored_cell, dtype_of.
  rewrite (existsb_none is_nested is_int), (existsb_none is_text is_int),
    (existsb_none is_boolean is_int), (existsb_none is_na is_int);
    try done; try (by intros [[]|]).
  destruct col as [|c col]; [done|]. inversion Hall as [|? ? Hc ?]; subst.
  simpl existsb. rewrite Hc. simpl.
  by destruct (forallb fits_int64 _).
Qed.

(** The records of a frame carry the "index" entries of its rows. *)
Lemma to_dict_records_index data idxs :
  Forall2 (fun info i => index_of info = Some i) data idxs ->
  record_index <$> to_dict_records env (mk_frame data) = Some <$> idxs.
Proof.
  intros H. apply list_eq. intros j.
  rewrite !list_lookup_fmap. unfold to_dict_records. rewrite list_lookup_imap.
  change (rows (mk_frame data)) with data.
  destruct (data !! j) as [info|] eqn:E.
  - destruct (Forall2_lookup_l _ _ _ _ _ H E) as (i & Hi & Hidx). rewrite Hi. simpl.
    f_equal. apply index_of_raw in Hidx as [Hraw Hkey].
    unfold record_index. rewrite record_lookup_columns.
    2: { eapply columns_keys; [|exact Hkey]. by eapply list_elem_of_lookup_2. }
    rewrite Hraw, stored_cell_int; [done| |].
    + apply Forall_fmap, Forall_forall. intros x Hx. simpl.
      apply list_elem_of_lookup in Hx as [j' Hj'].
      destruct (Forall2_lookup_l _ _ _ _ _ H Hj') as (i' & _ & Hx).
      apply index_of_raw in Hx as [-> _]. done.
    + intros Hnil. apply fmap_nil_inv in Hnil. by subst.
  - simpl. apply Forall2_length in H.
    apply lookup_ge_None in E. rewrite (proj2 (lookup_ge_None idxs j)); [done | lia].
Qed.

Lemma record_index_convert (r : record) i :
  record_index r = Some i ->
  record_index ((fun kv => (kv.1, Spotify.convert_value kv.2)) <$> r) = Some i.
Proof.
  unfold record_index.
  assert (forall k, record_lookup k ((fun kv => (kv.1, Spotify.convert_value kv.2)) <$> r)
                    = Spotify.convert_value <$> record_lookup k r) as ->.
  { intros k. induction r as [|[k' v] r IH]; simpl; [done|].
    by destruct (bool_decide (k' = k)). }
  destruct (record_lookup (lit "index") r) as [[[]| |]|]; try done.
Qed.

Lemma spotify_track_records_index data idxs :
  Forall2 (fun info i => index_of info = Some i) data idxs ->
  record_index <$> Spotify.track_records env data = Some <$> idxs.
Proof.
  intros H. apply to_dict_records_index in H.
  unfold Spotify.track_records, Spotify.convert_records.
  rewrite <- H, <- list_fmap_compose. apply list_eq. intros j.
  rewrite !list_lookup_fmap.
  destruct (to_dict_records env (mk_frame data) !! j) as [r|] eqn:E; [|done].
  simpl. assert (record_index <$> to_dict_records env (mk_frame data) !! j
                 = Some (record_index r)) as Hr by (by rewrite E).
  rewrite <- list_lookup_fmap, H, list_lookup_fmap in Hr.
  destruct (idxs !! j) as [i|]; [|done]. injection Hr as Hr.
  f_equal. rewrite <- Hr. by apply record_index_convert.
Qed.

End Frames.

Section Snapshots.
Context (env : Env).

(** A run of the Spotify indexer that returns a path has fetched a track
    list, normalized it and stored the result under that path. *)
Lemma spotify_index_playlist_Ok fuel self playlist_url w path w' :
  Spotify.index_playlist env fuel self playlist_url w = (Ok (Some (JStr path)), w') ->
  exists playlist_id raw out meta stats w1 w2 w3,
    Spotify.extract_playlist_id playlist_url = Some playlist_id
    /\ Spotify.get_playlist_tracks env fuel self playlist_id w1 = (Ok (Some raw), w2)
    /\ Spotify.process_all env self raw 1 [] w2 = (Ok out, w3)
    /\ Spotify.summarize env out = Ok stats
    /\ w' = stored path
              (SpotifySnapshot
                 {| playlist_metadata := meta;
                    tracks := Spotify.track_records env out;
                    summary := stats |}) w3.
Proof.
  unfold Spotify.index_playlist. intros H.
  destruct (Spotify.extract_playlist_id playlist_url) as [[|c pid]|] eqn:He;
    try (by apply ret_Ok in H as [[=] _]).
  bind_inv H. case_if H; [by apply ret_Ok in H as [[=] _]|].
  lift_inv H. bind_inv H.
  case_match_in H; [|by apply ret_Ok in H as [[=] _]].
  bind_inv H. apply ret_Ok in H as [[= ->] <-].
  match goal with Hi : Spotify.index_tracks _ _ _ _ _ _ = _ |- _ =>
    apply spotify_index_tracks_Ok in Hi as (path' & out & stats & w3 & [= <-] & Hp & Hs & ->)
  end.
  by eexists (c :: pid), _, out, _, stats, _, _, w3.
Qed.

(** [json.dump] returns only if the total duration is no numpy integer,
    and then the whole snapshot is in the file. *)
Lemma json_dump_Ok path final_data w u w' :
  Apple.json_dump path final_data w = (Ok u, w') ->
  (forall n, AppleDoc.total_duration_ms (summary final_data) <> NpInt n)
  /\ w' = stored path (AppleSnapshot final_data) w.
Proof.
  unfold Apple.json_dump.
  destruct (AppleDoc.total_duration_ms (summary final_data)) as [n|x|v]; intros H.
  - unfold bind, write_file, lift in H. discriminate H.
  - split; [done|]. by apply write_file_Ok in H.
  - split; [done|]. by apply write_file_Ok in H.
Qed.

Lemma apple_index_playlist_Ok self playlist_url w path w' :
  Apple.index_playlist env self playlist_url w = (Ok (JStr path), w') ->
  exists playlist_id details raw out meta stats w1 w2 w3 w4,
    Apple.extract_playlist_id playlist_url = Some playlist_id
    /\ Apple.get_playlist_details env self playlist_id w1 = (Ok details, w2)
    /\ embedded_tracks details = Ok raw
    /\ Apple.process_all env self raw 1 [] w3 = (Ok out, w4)
    /\ Apple.summarize env out = Ok stats
    /\ (forall n, AppleDoc.total_duration_ms stats <> NpInt n)
    /\ w' = stored path
              (AppleSnapshot
                 {| playlist_metadata := meta;
                    tracks := Apple.track_records env out;
                    summary := stats |}) w4.
Proof.
  unfold Apple.index_playlist. intros H.
  destruct (Apple.extract_playlist_id playlist_url) as [[|c pid]|] eqn:He;
    try (by apply ret_Ok in H as [[=] _]).
  bind_inv H. case_if H; [by apply ret_Ok in H as [[=] _]|].
  repeat lift_inv H. bind_inv H. lift_inv H. bind_inv H.
  match goal with Hw : Apple.json_dump _ _ _ = _ |- _ =>
    apply json_dump_Ok in Hw as [Hnp Hw] end.
  apply ret_Ok in H as [[= <-] <-]. subst.
  eexists (c :: pid), _, _, _, _, _, _, _, _, _.
  split; [done|]. split; [eassumption|].
  split; [|split; [eassumption|split; [eassumption|split; [exact Hnp|reflexivity]]]].
  unfold embedded_tracks, res_bind.
  repeat (match goal with Hx : ?r = Ok _ |- context [?r] => rewrite Hx end; cbv beta iota).
  reflexivity.
Qed.

End Snapshots.

Lemma Forall2_index_spotify env self out l :
  Forall2 (spotify_track_of env self) out l ->
  Forall2 (fun info i => index_of info = Some i) out (fst <$> l).
Proof.
  induction 1 as [|info p out l [Hi _] _ IH]; simpl; constructor; done.
Qed.

Lemma Forall2_index_apple env self out l :
  Forall2 (apple_track_of env self) out l ->
  Forall2 (fun info i => index_of info = Some i) out (fst <$> l).
Proof.
  induction 1 as [|info p out l [Hi _] _ IH]; simpl; constructor; done.
Qed.

(** C10.  In every snapshot an indexer writes, the tracks are the records
    of the data frame built from what [process_track] made of the items of
    the raw fetched sequence, in order, and the "index" of each record is
    the 1-based position of its source item.  On Spotify only the items
    that are tracks are there, so the indices are strictly increasing and
    may have gaps; on Apple Music every item is there and the indices are
    exactly 1, ..., N. *)
Theorem snapshot_indices (env : Env) :
  (forall fuel self playlist_url w path w',
      Spotify.index_playlist env fuel self playlist_url w = (Ok (Some (JStr path)), w') ->
      exists snap playlist_id raw out w1 w2,
        files w' !! path = Some (SpotifySnapshot snap)
        /\ Spotify.extract_playlist_id playlist_url = Some playlist_id
        /\ Spotify.get_playlist_tracks env fuel self playlist_id w1 = (Ok (Some raw), w2)
        /\ Forall2 (spotify_track_of env self) out
             (List.filter (fun p => kept p.2) (enumerate 1 raw))
        /\ tracks snap = Spotify.track_records env out
        /\ record_index <$> tracks snap
           = Some <$> (fst <$> List.filter (fun p => kept p.2) (enumerate 1 raw))
        /\ StronglySorted Z.lt (fst <$> List.filter (fun p => kept p.2) (enumerate 1 raw)))
  /\ (forall self playlist_url w path w',
      Apple.index_playlist env self playlist_url w = (Ok (JStr path), w') ->
      exists snap playlist_id details raw out w1 w2,
        files w' !! path = Some (AppleSnapshot snap)
        /\ Apple.extract_playlist_id playlist_url = Some playlist_id
        /\ Apple.get_playlist_details env self playlist_id w1 = (Ok details, w2)
        /\ embedded_tracks details = Ok raw
        /\ Forall2 (apple_track_of env self) out (enumerate 1 raw)
        /\ tracks snap = Apple.track_records env out
        /\ record_index <$> tracks snap = Some <$> (Z.of_nat <$> seq 1 (length raw))).
Proof.
  split.
  - intros fuel self playlist_url w path w' H.
    apply spotify_index_playlist_Ok in H
      as (pid & raw & out & meta & stats & w1 & w2 & w3 & He & Hf & Hp & _ & ->).
    apply spotify_process_all_Ok in Hp as (new & -> & Hnew).
    eexists _, pid, raw, new, w1, w2. split; [apply lookup_insert_eq|].
    split; [done|]. split; [done|]. split; [exact Hnew|]. split; [reflexivity|].
    split; [|apply enumerate_sorted].
    simpl. by eapply spotify_track_records_index, Forall2_index_spotify.
  - intros self playlist_url w path w' H.
    apply apple_index_playlist_Ok in H
      as (pid & details & raw & out & meta & stats & w1 & w2 & w3 & w4
          & He & Hd & Hr & Hp & _ & _ & ->).
    apply apple_process_all_Ok in Hp as (new & -> & Hnew).
    eexists _, pid, details, raw, new, w1, w2. split; [apply lookup_insert_eq|].
    split; [done|]. split; [done|]. split; [done|]. split; [exact Hnew|].
    split; [reflexivity|]. simpl.
    replace (Z.of_nat <$> seq 1 (length raw)) with (fst <$> enumerate 1 raw).
    + by eapply to_dict_records_index, Forall2_index_apple.
    + rewrite enumerate_positions, <- seq_shift, map_map.
      apply map_ext. intros k. lia.
Qed.

Lemma snapshot_indices_witness :
  let env :=
    ascii_env (mock_api sample_details
                 [[sample_item "a" "track"; sample_item "b" "episode";
                   sample_item "c" "track"]] 9 []) in
  let self := Spotify.init (lit "token") in
  let url := lit "https://open.spotify.com/playlist/PL1?si=1" in
  let path := lit "playlist_data/spotify_playlist_PL1_20250101_000000.json" in
  let w' := (Spotify.index_playlist env 5 self url empty_world).2 in
  let apple_env :=
    ascii_env (mock_api
                 (apple_details_of [apple_sample_track "x";
                                    apple_track_without_duration "y"]) [] 9 []) in
  let apple_self := Apple.init (lit "token") (lit "us") in
  let apple_url := lit "https://music.apple.com/us/playlist/mix/pl.u-1" in
  let apple_path := lit "playlist_data/playlist_pl.u-1_20250101_000000.json" in
  let apple_w' := (Apple.index_playlist apple_env apple_self apple_url empty_world).2 in
  (exists snap raw,
     files w' !! path = Some (SpotifySnapshot snap)
     /\ record_index <$> tracks snap
        = Some <$> (fst <$> List.filter (fun p => kept p.2) (enumerate 1 raw))
     /\ StronglySorted Z.lt (fst <$> List.filter (fun p => kept p.2) (enumerate 1 raw)))
  /\ (exists snap (raw : list json),
       files apple_w' !! apple_path = Some (AppleSnapshot snap)
       /\ record_index <$> tracks snap = Some <$> (Z.of_nat <$> seq 1 (length raw))).
Proof.
  intros env self url path w' apple_env apple_self apple_url apple_path apple_w'. split.
  - destruct (proj1 (snapshot_indices env) 5%nat self url empty_world path w')
      as (snap & pid & raw & out & w1 & w2 & H1 & _ & _ & _ & _ & H2 & H3).
    + vm_compute. reflexivity.
    + exists snap, raw. exact (conj H1 (conj H2 H3)).
  - destruct (proj2 (snapshot_indices apple_env) apple_self apple_url empty_world
                apple_path apple_w')
      as (snap & pid & details & raw & out & w1 & w2 & H1 & _ & _ & _ & _ & _ & H2).
    + vm_compute. reflexivity.
    + exists snap, raw. exact (conj H1 H2).
Defined.

(** The indices of a Spotify snapshot have gaps where items were dropped;
    those of an Apple Music snapshot are 1, 2, ...  In the Apple Music
    run the second track has no duration, so pandas holds the durations as
    floats and their sum is a [numpy.float64], which [json.dump] accepts. *)
Example spotify_indices_with_gap :
  let env :=
    ascii_env (mock_api sample_details
                 [[sample_item "a" "track"; sample_item "b" "episode";
                   sample_item "c" "track"]] 9 []) in
  let out :=
    Spotify.index_playlist env 5 (Spotify.init (lit "token"))
      (lit "https://open.spotify.com/playlist/PL1?si=1") empty_world in
  exists snap,
    files out.2 !! lit "playlist_data/spotify_playlist_PL1_20250101_000000.json"
      = Some (SpotifySnapshot snap)
    /\ record_index <$> tracks snap = [Some 1; Some 3]
    /\ SpotifyDoc.total_tracks (summary snap) = 2%nat.
Proof. vm_compute. eexists. split; [reflexivity|]. split; reflexivity. Qed.

Example apple_indices :
  let env :=
    ascii_env (mock_api
                 (apple_details_of [apple_sample_track "x";
                                    apple_track_without_duration "y"]) [] 9 []) in
  let out :=
    Apple.index_playlist env (Apple.init (lit "token") (lit "us"))
      (lit "https://music.apple.com/us/playlist/mix/pl.u-1") empty_world in
  out.1 = Ok (JStr (lit "playlist_data/playlist_pl.u-1_20250101_000000.json"))
  /\ exists snap,
       files out.2 !! lit "playlist_data/playlist_pl.u-1_20250101_000000.json"
         = Some (AppleSnapshot snap)
       /\ record_index <$> tracks snap = [Some 1; Some 2]
       /\ record_lookup (lit "duration_ms") <$> tracks snap
          = [Some (Float 200000); Some NaN]
       /\ AppleDoc.total_duration_ms (summary snap) = NpFloat 200000.
Proof.
  vm_compute. split; [done|]. eexists. split; [reflexivity|].
  split; [reflexivity|]. split; reflexivity.
Qed.

(** Sums of an [int64] column wrap around, and a column with a missing
    cell holds floats. *)
Example series_sum_wraps (env : Env) :
  series_sum env [Some (JNum (2 ^ 62)); Some (JNum (2 ^ 62))] = Ok (NpInt (- 2 ^ 63))
  /\ series_sum env [Some (JNum 3); Some JNull; None] = Ok (NpFloat 3)
  /\ values env [Some (JNum 3); Some JNull; None] = [Float 3; NaN; NaN]
  /\ values env [Some (JStr (lit "a")); None] = [Plain (JStr (lit "a")); NaN]
  /\ values env [Some (JBool true); Some JNull] = [Plain (JBool true); Plain JNull].
Proof. repeat split; reflexivity. Qed.

(** When every track has an integer duration, the total is a
    [numpy.int64]: [json.dump] raises [TypeError] at it, the run ends with
    that exception, and the file is left cut off after the tracks. *)
Example apple_integer_durations :
  let env := ascii_env (mock_api apple_sample_details [] 9 []) in
  let out :=
    Apple.index_playlist env (Apple.init (lit "token") (lit "us"))
      (lit "https://music.apple.com/us/playlist/mix/pl.u-1") empty_world in
  out.1 = Raise TypeError
  /\ exists meta records,
       files out.2 !! lit "playlist_data/playlist_pl.u-1_20250101_000000.json"
         = Some (Truncated meta records 2)
       /\ record_index <$> records = [Some 1; Some 2].
Proof. vm_compute. split; [done|]. eexists _, _. split; reflexivity. Qed.

(** C6 fails on the code.  [process_track] does drop an item whose track
    is null, as its comment announces, but the loop of [index_playlist]
    never gets there: its logging line reads the name of the track with
    [track_item.get('track', {}).get('name', 'Unknown')], and the default
    applies to an absent key only, so a null track raises
    [AttributeError] and the run ends without an output sequence. *)
Theorem unavailable_item_raises (env : Env) (self : Spotify.indexer)
    (rest processed_tracks : list json) (index : Z) (w : World) :
  kept unavailable_item = false
  /\ Spotify.process_track env self unavailable_item index w = (Ok JNull, w)
  /\ Spotify.process_all env self (unavailable_item :: rest) index processed_tracks w
     = (Raise AttributeError, w).
Proof. split; [reflexivity|]. split; reflexivity. Qed.

Example index_playlist_unavailable_item :
  let env :=
    ascii_env (mock_api sample_details
                 [[sample_item "a" "track"; unavailable_item; sample_item "c" "track"]]
                 9 []) in
  let out :=
    Spotify.index_playlist env 5 (Spotify.init (lit "token"))
      (lit "https://open.spotify.com/playlist/PL1") empty_world in
  out.1 = Raise AttributeError /\ files out.2 = ∅.
Proof. vm_compute. split; reflexivity. Qed.

(** C4 fails on the code.  The defaults of [dict.get] cover absent keys
    only: an Apple Music track whose list of previews is empty raises
    [IndexError] at [previews[0]], and a Spotify item whose "added_by" is
    null raises [AttributeError]; neither degrades to a null value. *)
Theorem process_track_raises (env : Env) :
  (forall self index w,
      Apple.process_track env self track_without_previews index w = (Raise IndexError, w))
  /\ (forall self index w,
      Spotify.process_track env self item_without_adder index w
      = (Raise AttributeError, w)).
Proof. split; intros; reflexivity. Qed.

(** Keys that are absent do degrade to null or empty values. *)
Example apple_process_track_empty (env : Env) (self : Apple.indexer) (w : World) :
  Apple.process_track env self (JDict []) 1 w
  = (Ok (JDict [ (lit "index", JNum 1); (lit "id", JNull); (lit "type", JNull);
                 (lit "name", JNull); (lit "artist_name", JNull);
                 (lit "album_name", JNull); (lit "duration_ms", JNull);
                 (lit "release_date", JNull); (lit "genre_names", JList []);
                 (lit "track_number", JNull); (lit "disc_number", JNull);
                 (lit "isrc", JNull); (lit "content_rating", JNull);
                 (lit "preview_url", JNull); (lit "artwork_url", JNull);
                 (lit "artwork_local_path", JNull) ]), w).
Proof. reflexivity. Qed.

(** C5 fails on the code.  The data frame built from an empty list of
    tracks has no columns, so the first aggregate, [df['duration_ms']],
    raises [KeyError] on both platforms. *)
Theorem summarize_empty_raises (env : Env) :
  Spotify.summarize env [] = Raise KeyError
  /\ Apple.summarize env [] = Raise KeyError.
Proof. split; reflexivity. Qed.

Example index_playlist_empty_playlist :
  let env := ascii_env (mock_api sample_details [[]] 9 []) in
  let out :=
    Spotify.index_playlist env 5 (Spotify.init (lit "token"))
      (lit "https://open.spotify.com/playlist/PL1") empty_world in
  out.1 = Raise KeyError /\ files out.2 = ∅.
Proof. vm_compute. split; reflexivity. Qed.

(** * Further properties of the indexers *)

(** ** Rejected URLs *)

(** A URL without the marker, or one from which only an empty identifier
    comes out, ends [index_playlist] at once: the result is null, nothing
    is requested and nothing is written. *)
Theorem index_playlist_rejects_url (env : Env) :
  (forall fuel self playlist_url w,
      contains (lit "playlist/") playlist_url = false
      \/ Spotify.extract_playlist_id playlist_url = Some [] ->
      Spotify.index_playlist env fuel self playlist_url w = (Ok (Some JNull), w))
  /\ (forall self playlist_url w,
      contains (lit "/playlist/") playlist_url = false
      \/ Apple.extract_playlist_id playlist_url = Some [] ->
      Apple.index_playlist env self playlist_url w = (Ok JNull, w)).
Proof.
  split.
  - intros fuel self playlist_url w [H|H]; unfold Spotify.index_playlist.
    + unfold Spotify.extract_playlist_id. by rewrite H.
    + by rewrite H.
  - intros self playlist_url w [H|H]; unfold Apple.index_playlist.
    + unfold Apple.extract_playlist_id. by rewrite H.
    + by rewrite H.
Qed.

Lemma index_playlist_rejects_url_witness :
  Spotify.index_playlist (ascii_env offline) 5 (Spotify.init (lit "token"))
    (lit "https://open.spotify.com/track/4uLU6hMCjMI75M1A2tKUQC") empty_world
  = (Ok (Some JNull), empty_world)
  /\ Apple.index_playlist (ascii_env offline) (Apple.init (lit "token") (lit "us"))
       (lit "https://music.apple.com/us/playlist/") empty_world
     = (Ok JNull, empty_world).
Proof.
  destruct (index_playlist_rejects_url (ascii_env offline)) as [Hs Ha]. split.
  - apply Hs. left. vm_compute. reflexivity.
  - apply Ha. right. vm_compute. reflexivity.
Defined.

(** ** Downloads never fail the run *)


Lemma spotify_download_absent env self artwork_url filename w :
  truthy artwork_url = true ->
  ~ is_Some (files w !! path_join (Spotify.images_dir self) filename) ->
  Spotify.download_artwork env self artwork_url filename w
  = match requests_get env artwork_url [] [] w with
    | (Ok (Some r), w1) =>
        if raises_for_status r then (Ok JNull, w1)
        else (Ok (JStr (path_join (Spotify.images_dir self) filename)),
              stored (path_join (Spotify.images_dir self) filename) (Image (content r)) w1)
    | (Ok None, w1) => (Ok JNull, w1)
    | (Raise e, w1) => (Raise e, w1)
    end.
Proof.
  intros Ht Hp. unfold Spotify.download_artwork. rewrite Ht.
  change (negb true) with false. cbv iota.
  rewrite bind_unfold. unfold path_exists at 1.
  rewrite bool_decide_eq_false_2 by done. rewrite bind_unfold.
  destruct (requests_get env artwork_url [] [] w) as [[[r|]|e] w1]; try reflexivity.
  destruct (raises_for_status r); reflexivity.
Qed.



(** ** What an extracted identifier never contains *)

Lemma first_piece_free c (s : list N) : c ∉ first_of (split [c] s).
Proof.
  assert ([c] <> []) as Hc by done.
  destruct (find [c] s) as [i|] eqn:F.
  - destruct (split_cut _ _ _ Hc F) as (a & b & -> & Hl & ->).
    unfold first_of. simpl. intros Hin.
    apply list_elem_of_split in Hin as (a1 & a2 & ->).
    rewrite <- app_assoc in F. simpl in F.
    destruct (find_first [c] a1 (a2 ++ [c] ++ b)) as (j & Fj & Hj).
    simpl in Fj. rewrite F in Fj. injection Fj as <-.
    rewrite length_app in Hl. simpl in Hl. lia.
  - rewrite split_unfold, F by done. unfold first_of. simpl.
    intros Hin. apply contains_char in Hin. unfold contains in Hin. by rewrite F in Hin.
Qed.

Lemma last_piece_free c (s : list N) : c ∉ last_of (split [c] s).
Proof.
  assert ([c] <> []) as Hc by done.
  remember (length s) as n eqn:Hn. revert s Hn.
  induction n as [n IH] using lt_wf_ind. intros s Hn.
  destruct (find [c] s) as [i|] eqn:F.
  - destruct (split_cut _ _ _ Hc F) as (a & b & -> & Hl & ->).
    rewrite last_of_cons by apply split_nonempty.
    apply (IH (length b)); [|done]. rewrite Hn, !length_app. simpl. lia.
  - rewrite split_unfold, F by done. unfold last_of. simpl.
    intros Hin. apply contains_char in Hin. unfold contains in Hin. by rewrite F in Hin.
Qed.

(** The identifier the Spotify resolver returns never contains "?", and
    the one the Apple Music resolver returns never contains "/". *)
Theorem extracted_id_is_clean :
  (forall playlist_url playlist_id,
      Spotify.extract_playlist_id playlist_url = Some playlist_id ->
      ch "?" ∉ playlist_id)
  /\ (forall playlist_url playlist_id,
      Apple.extract_playlist_id playlist_url = Some playlist_id ->
      ch "/" ∉ playlist_id).
Proof.
  split; intros playlist_url playlist_id H.
  - unfold Spotify.extract_playlist_id in H.
    destruct (contains _ _); [|done]. injection H as <-.
    change (lit "?") with [ch "?"]. apply first_piece_free.
  - unfold Apple.extract_playlist_id in H.
    destruct (contains _ _); [|done]. injection H as <-.
    change (lit "/") with [ch "/"]. apply last_piece_free.
Qed.

Lemma extracted_id_is_clean_witness :
  (ch "?" ∉ lit "37i9dQZF1DX/extra") /\ (ch "/" ∉ lit "pl.u-1?l=en").
Proof.
  destruct extracted_id_is_clean as [Hs Ha]. split.
  - apply (Hs (lit "https://open.spotify.com/playlist/37i9dQZF1DX/extra?si=1?x")).
    vm_compute. reflexivity.
  - apply (Ha (lit "https://music.apple.com/us/playlist/mix/pl.u-1?l=en")).
    vm_compute. reflexivity.
Defined.

(** ** What the track loop does to the world *)

Section Effects.
Context (env : Env).

Lemma effect_refl keep n w : effect keep n w w.
Proof.
  split; [|split]; [by intros p | by intros _ p d |].
  exists []. split; [by rewrite app_nil_r | simpl; lia].
Qed.

Lemma effect_trans keep a b w1 w2 w3 :
  effect keep a w1 w2 -> effect keep b w2 w3 -> effect keep (a + b) w1 w3.
Proof.
  intros (P1 & K1 & n1 & L1 & B1) (P2 & K2 & n2 & L2 & B2). split; [|split].
  - intros p Hp. by apply P2, P1.
  - intros Hk p d Hp. by apply K2, K1.
  - exists (n1 ++ n2). split; [by rewrite L2, L1, app_assoc|].
    rewrite length_app. lia.
Qed.

Lemma effect_weaken keep a b w w' : (a <= b)%nat -> effect keep a w w' -> effect keep b w w'.
Proof.
  intros Hab (P & K & n & L & B). split; [done|]. split; [done|].
  exists n. split; [done|lia].
Qed.

Lemma within_ret {A} keep n (a : A) : within keep n (ret a).
Proof. intros w. apply effect_weaken with 0%nat; [lia | apply effect_refl]. Qed.

Lemma within_lift {A} keep n (r : res A) : within keep n (lift r).
Proof. intros w. apply effect_weaken with 0%nat; [lia | apply effect_refl]. Qed.

Lemma within_bind {A B} keep a b (c : M A) (k : A -> M B) :
  within keep a c -> (forall x, within keep b (k x)) -> within keep (a + b) (bind c k).
Proof.
  intros Hc Hk w. unfold bind. specialize (Hc w).
  destruct (c w) as [[x|e] w1]; simpl in Hc.
  - apply effect_trans with w1; [done | apply Hk].
  - simpl. apply effect_weaken with a; [lia | done].
Qed.

Lemma within_bind_pure {A B} keep n (c : M A) (k : A -> M B) :
  within keep 0 c -> (forall x, within keep n (k x)) -> within keep n (bind c k).
Proof. intros Hc Hk. by apply (within_bind keep 0 n). Qed.

Lemma within_bind_tail {A B} keep n (c : M A) (k : A -> M B) :
  within keep n c -> (forall x, within keep 0 (k x)) -> within keep n (bind c k).
Proof.
  intros Hc Hk w. apply effect_weaken with (n + 0)%nat; [lia|].
  by apply (within_bind keep n 0).
Qed.

Lemma requests_get_within keep url hs ps : within keep 1 (requests_get env url hs ps).
Proof.
  intros w. unfold requests_get.
  destruct url; try (apply (effect_weaken keep 0 1); [lia | apply effect_refl]).
  assert (effect keep 1 w
            {| files := files w;
               net_log := net_log w
                 ++ [{| req_url := s; req_headers := hs; req_params := ps |}] |})
    as H.
  { split; [by intros p|]. split; [by intros _ p d|].
    eexists. split; [reflexivity | simpl; lia]. }
  destruct (net env _ _); exact H.
Qed.

Lemma spotify_download_within self artwork_url filename :
  within true 1 (Spotify.download_artwork env self artwork_url filename).
Proof.
  intros w. destruct (truthy artwork_url) eqn:Ht.
  2: { unfold Spotify.download_artwork. rewrite Ht.
       apply effect_weaken with 0%nat; [lia | apply effect_refl]. }
  destruct (decide (is_Some (files w !! path_join (Spotify.images_dir self) filename)))
    as [Hp|Hp].
  { rewrite spotify_download_present by done.
    apply effect_weaken with 0%nat; [lia | apply effect_refl]. }
  rewrite spotify_download_absent by done.
  pose proof (requests_get_within true artwork_url [] [] w) as Hw.
  destruct (requests_get env artwork_url [] [] w) as [[[r|]|e] w1]; simpl in Hw; try done.
  destruct (raises_for_status r); [done|]. simpl.
  destruct Hw as (P & K & L). split; [|split].
  - intros p Hq. apply P in Hq. unfold stored. simpl.
    destruct (decide (p = path_join (Spotify.images_dir self) filename)) as [->|Hne].
    + rewrite lookup_insert_eq. by eexists.
    + by rewrite lookup_insert_ne.
  - intros _ p d Hq. unfold stored. simpl. rewrite lookup_insert_ne; [by apply K|].
    intros <-. apply Hp. by eexists.
  - done.
Qed.

Lemma apple_download_within self artwork_url filename :
  within false 1 (Apple.download_artwork env self artwork_url filename).
Proof.
  unfold Apple.download_artwork.
  destruct (negb (truthy artwork_url)); [apply within_ret|].
  apply within_bind_pure; [apply within_lift|]. intros has.
  apply within_bind_pure; [destruct has; [apply within_lift | apply within_ret]|].
  intros url. apply within_bind_tail; [apply requests_get_within|].
  intros [r|]; [|apply within_ret].
  destruct (raises_for_status r); [apply within_ret|].
  apply within_bind_pure; [|intros; apply within_ret].
  intros w. split; [|split].
  - intros p Hp. simpl.
    destruct (decide (p = path_join (Apple.images_dir self) filename)) as [->|Hne].
    + rewrite lookup_insert_eq. by eexists.
    + by rewrite lookup_insert_ne.
  - done.
  - exists []. split; [by rewrite app_nil_r | simpl; lia].
Qed.

End Effects.

Ltac within_pure :=
  repeat first
    [ apply within_ret
    | apply within_lift
    | apply within_bind_tail; [apply spotify_download_within | intros ?]
    | apply within_bind_tail; [apply apple_download_within | intros ?]
    | apply within_bind_pure; [| intros ?]
    | match goal with |- within _ _ (if ?b then _ else _) => destruct b end ].

Section LoopEffects.
Context (env : Env).

Lemma spotify_process_track_within self item idx :
  within true 1 (Spotify.process_track env self item idx).
Proof. unfold Spotify.process_track. within_pure. Qed.

Lemma apple_process_track_within self item idx :
  within false 1 (Apple.process_track env self item idx).
Proof. unfold Apple.process_track. within_pure. Qed.

Lemma spotify_process_all_within self items : forall idx acc,
  within true (length items) (Spotify.process_all env self items idx acc).
Proof.
  induction items as [|item items IH]; intros idx acc; simpl.
  - apply within_ret.
  - apply within_bind_pure; [apply within_lift|]. intros track.
    apply within_bind_pure; [apply within_lift|]. intros name.
    apply (within_bind true 1 (length items)); [apply spotify_process_track_within|].
    intros info. apply IH.
Qed.

Lemma apple_process_all_within self items : forall idx acc,
  within false (length items) (Apple.process_all env self items idx acc).
Proof.
  induction items as [|item items IH]; intros idx acc; simpl.
  - apply within_ret.
  - apply within_bind_pure; [apply within_lift|]. intros name.
    apply (within_bind false 1 (length items)); [apply apple_process_track_within|].
    intros info. apply IH.
Qed.

End LoopEffects.

(** The Spotify track loop never changes or removes a file that is already
    there, whether it completes or raises: artwork is only ever added. *)
Theorem spotify_loop_keeps_files (env : Env) (self : Spotify.indexer)
    (tracks_data processed_tracks : list json) (index : Z) (w : World) :
  files_kept w (Spotify.process_all env self tracks_data index processed_tracks w).2.
Proof.
  by apply (spotify_process_all_within env self tracks_data index processed_tracks w).
Qed.

(** On both platforms the track loop sends at most one request per item,
    whether it completes or raises, and keeps the log of the earlier
    requests. *)
Theorem loop_fetches_once_per_item (env : Env) (tracks_data processed_tracks : list json)
    (index : Z) (w : World) :
  (forall self,
      fetches_within (length tracks_data) w
        (Spotify.process_all env self tracks_data index processed_tracks w).2)
  /\ (forall self,
      fetches_within (length tracks_data) w
        (Apple.process_all env self tracks_data index processed_tracks w).2).
Proof.
  split; intros self.
  - by apply (spotify_process_all_within env self tracks_data index processed_tracks w).
  - by apply (apple_process_all_within env self tracks_data index processed_tracks w).
Qed.

Section ArtworkOnDisk.
Context (env : Env).

Lemma artwork_on_disk_mono w w' track_info :
  paths_kept w w' -> artwork_on_disk w track_info -> artwork_on_disk w' track_info.
Proof.
  intros Hk. unfold artwork_on_disk. destruct track_info; try done.
  destruct (dict_lookup _ _) as [[]|]; try done. apply Hk.
Qed.

Lemma spotify_download_Ok self artwork_url filename w r w' :
  Spotify.download_artwork env self artwork_url filename w = (Ok r, w') ->
  r = JNull \/ exists p, r = JStr p /\ is_Some (files w' !! p).
Proof.
  intros H. destruct (truthy artwork_url) eqn:Ht.
  2: { unfold Spotify.download_artwork in H. rewrite Ht in H.
       apply ret_Ok in H as [<- _]. by left. }
  destruct (decide (is_Some (files w !! path_join (Spotify.images_dir self) filename)))
    as [Hp|Hp].
  { rewrite spotify_download_present in H by done. injection H as <- <-. right. eauto. }
  rewrite spotify_download_absent in H by done.
  destruct (requests_get env artwork_url [] [] w) as [[[resp|]|e] w1]; try done.
  - destruct (raises_for_status resp); injection H as <- <-; [by left|].
    right. eexists. split; [done|]. unfold stored. simpl.
    rewrite lookup_insert_eq. by eexists.
  - injection H as <- <-. by left.
Qed.

Lemma apple_download_Ok self artwork_url filename w r w' :
  Apple.download_artwork env self artwork_url filename w = (Ok r, w') ->
  r = JNull \/ exists p, r = JStr p /\ is_Some (files w' !! p).
Proof.
  unfold Apple.download_artwork. intros H.
  case_if H; [apply ret_Ok in H as [<- _]; by left|].
  lift_inv H. bind_inv H. clear Hc0. bind_inv H.
  case_match_in H; [|apply ret_Ok in H as [<- _]; by left].
  case_if H; [apply ret_Ok in H as [<- _]; by left|].
  bind_inv H.
  match goal with Hw : write_file _ _ _ = _ |- _ => apply write_file_Ok in Hw end.
  apply ret_Ok in H as [<- <-]. subst.
  right. eexists. split; [done|]. unfold stored. simpl.
  rewrite lookup_insert_eq. by eexists.
Qed.

Lemma spotify_process_track_artwork self item idx w info w' :
  Spotify.process_track env self item idx w = (Ok info, w') ->
  info = JNull \/ artwork_on_disk w' info.
Proof.
  unfold Spotify.process_track. intros H.
  bind_inv H. clear Hc.
  case_if H; [apply ret_Ok in H as [<- _]; by left|].
  bind_inv H. clear Hc.
  case_if H; [apply ret_Ok in H as [<- _]; by left|].
  repeat (bind_inv H; clear Hc).
  right. case_if H.
  - bind_inv H. apply spotify_download_Ok in Hc as [->|(p & -> & Hp)].
    + apply ret_Ok in H as [<- _]. exact I.
    + case_if H; apply ret_Ok in H as [<- <-]; [exact Hp | exact I].
  - apply ret_Ok in H as [<- _]. exact I.
Qed.

Lemma apple_process_track_artwork self item idx w info w' :
  Apple.process_track env self item idx w = (Ok info, w') ->
  artwork_on_disk w' info.
Proof.
  unfold Apple.process_track. intros H.
  repeat (bind_inv H; clear Hc).
  case_if H; [|apply ret_Ok in H as [<- _]; exact I].
  bind_inv H. clear Hc.
  case_if H; [|apply ret_Ok in H as [<- _]; exact I].
  bind_inv H. apply apple_download_Ok in Hc as [->|(p & -> & Hp)].
  - apply ret_Ok in H as [<- _]. exact I.
  - case_if H; apply ret_Ok in H as [<- <-]; [exact Hp | exact I].
Qed.

Lemma effect_of_run {A} keep n (c : M A) w r w' :
  within keep n c -> c w = (r, w') -> effect keep n w w'.
Proof. intros Hc H. specialize (Hc w). by rewrite H in Hc. Qed.

Lemma spotify_process_all_artwork self items : forall idx acc w out w',
  Spotify.process_all env self items idx acc w = (Ok out, w') ->
  Forall (artwork_on_disk w) acc -> Forall (artwork_on_disk w') out.
Proof.
  induction items as [|item items IH]; intros idx acc w out w' H Hacc; simpl in H.
  - by apply ret_Ok in H as [<- <-].
  - do 2 lift_inv H. bind_inv H.
    match goal with
    | Hc : Spotify.process_track _ _ _ _ _ = (Ok ?t, ?w1) |- _ =>
        pose proof (effect_of_run _ _ _ _ _ _
                      (spotify_process_track_within env self item idx) Hc) as (Hk & _);
        apply (IH _ _ _ _ _ H);
        assert (Forall (artwork_on_disk w1) acc) as Hacc'
          by (eapply Forall_impl; [exact Hacc | intros ?; by apply artwork_on_disk_mono]);
        destruct (truthy t) eqn:Ht; [|done];
        apply Forall_app; split; [done|]; constructor; [|constructor];
        apply spotify_process_track_artwork in Hc as [->|?]; done
    end.
Qed.

Lemma apple_process_all_artwork self items : forall idx acc w out w',
  Apple.process_all env self items idx acc w = (Ok out, w') ->
  Forall (artwork_on_disk w) acc -> Forall (artwork_on_disk w') out.
Proof.
  induction items as [|item items IH]; intros idx acc w out w' H Hacc; simpl in H.
  - by apply ret_Ok in H as [<- <-].
  - lift_inv H. bind_inv H.
    match goal with
    | Hc : Apple.process_track _ _ _ _ _ = (Ok ?t, ?w1) |- _ =>
        pose proof (effect_of_run _ _ _ _ _ _
                      (apple_process_track_within env self item idx) Hc) as (Hk & _);
        apply (IH _ _ _ _ _ H);
        apply Forall_app; split;
          [ eapply Forall_impl; [exact Hacc | intros ?; by apply artwork_on_disk_mono]
          | constructor; [|constructor]; by apply apple_process_track_artwork in Hc ]
    end.
Qed.

Lemma stored_paths_kept p d w : paths_kept w (stored p d w).
Proof.
  intros q Hq. unfold stored. simpl. destruct (decide (q = p)) as [->|Hne].
  - rewrite lookup_insert_eq. by eexists.
  - by rewrite lookup_insert_ne.
Qed.

End ArtworkOnDisk.

Section StoredArtwork.
Context (env : Env).

(** In a column of strings and nulls, a string is stored as it is, and a
    null as a null or as not-a-number. *)
Lemma stored_cell_path col i c :
  Forall (fun c => path_or_null c = true) col -> path_or_null c = true ->
  match c with
  | Some (JStr p) => stored_cell env col i c = Plain (JStr p)
  | _ => stored_cell env col i c = Plain JNull \/ stored_cell env col i c = NaN
  end.
Proof.
  intros Hall Hc. unfold stored_cell, dtype_of.
  rewrite (existsb_none is_nested path_or_null); [|by intros [[]|]|done].
  destruct (existsb is_text col).
  - replace (forallb (fun c => is_text c || is_na c) col) with true.
    + destruct c as [[]|]; try done. destruct (infer_string env); auto.
    + symmetry. apply forallb_forall. intros x Hx. apply list_elem_of_In in Hx.
      rewrite Forall_forall in Hall. specialize (Hall x Hx). by destruct x as [[]|].
  - rewrite (existsb_none is_boolean path_or_null), (existsb_none is_int path_or_null),
      (existsb_none is_absent path_or_null); try done; try (by intros [[]|]).
    destruct c as [[]|]; try done; auto.
Qed.

Lemma artwork_on_disk_cell w info :
  artwork_on_disk w info ->
  lit "artwork_local_path" ∈ keys_of info
  /\ path_or_null (raw_cell (lit "artwork_local_path") info) = true
  /\ match raw_cell (lit "artwork_local_path") info with
     | Some (JStr p) => is_Some (files w !! p)
     | _ => True
     end.
Proof.
  unfold artwork_on_disk, raw_cell, keys_of. destruct info as [| | | | |d]; try done.
  destruct (dict_lookup (lit "artwork_local_path") d) as [v|] eqn:E; [|done].
  intros H. split; [by eapply dict_lookup_keys|]. by destruct v.
Qed.

Lemma to_dict_records_artwork w data :
  Forall (artwork_on_disk w) data ->
  Forall (stored_artwork_on_disk w) (to_dict_records env (mk_frame data)).
Proof.
  intros H. apply Forall_lookup. intros j r Hr.
  unfold to_dict_records in Hr. rewrite list_lookup_imap in Hr.
  change (rows (mk_frame data)) with data in Hr.
  destruct (data !! j) as [info|] eqn:E; [|done]. injection Hr as <-.
  pose proof (proj1 (Forall_lookup _ _) H j info E) as Hinfo.
  apply artwork_on_disk_cell in Hinfo as (Hkey & Hc & Hfile).
  unfold stored_artwork_on_disk. rewrite record_lookup_columns.
  2: { eapply columns_keys; [|exact Hkey]. by eapply list_elem_of_lookup_2. }
  assert (Forall (fun c => path_or_null c = true)
            (raw_cell (lit "artwork_local_path") <$> data)) as Hall.
  { apply Forall_fmap, Forall_forall. intros x Hx. simpl.
    rewrite Forall_forall in H. specialize (H x Hx).
    by apply artwork_on_disk_cell in H as (_ & ? & _). }
  pose proof (stored_cell_path _ j _ Hall Hc) as Hs.
  destruct (raw_cell (lit "artwork_local_path") info) as [[]|]; try done.
  - by destruct Hs as [-> | ->].
  - by rewrite Hs.
Qed.

Lemma stored_artwork_convert w (r : record) :
  stored_artwork_on_disk w r ->
  stored_artwork_on_disk w ((fun kv => (kv.1, Spotify.convert_value kv.2)) <$> r).
Proof.
  unfold stored_artwork_on_disk.
  assert (forall k, record_lookup k ((fun kv => (kv.1, Spotify.convert_value kv.2)) <$> r)
                    = Spotify.convert_value <$> record_lookup k r) as ->.
  { intros k. induction r as [|[k' v] r IH]; simpl; [done|].
    by destruct (bool_decide (k' = k)). }
  destruct (record_lookup (lit "artwork_local_path") r) as [[[]| |]|]; done.
Qed.

End StoredArtwork.

(** In every snapshot an indexer writes, the "artwork_local_path" of each
    track is null (or the not-a-number pandas may make of it) or the path
    of a file that exists when the run ends. *)
Theorem snapshot_artwork_exists (env : Env) :
  (forall fuel self playlist_url w path w',
      Spotify.index_playlist env fuel self playlist_url w = (Ok (Some (JStr path)), w') ->
      exists snap,
        files w' !! path = Some (SpotifySnapshot snap)
        /\ Forall (stored_artwork_on_disk w') (tracks snap))
  /\ (forall self playlist_url w path w',
      Apple.index_playlist env self playlist_url w = (Ok (JStr path), w') ->
      exists snap,
        files w' !! path = Some (AppleSnapshot snap)
        /\ Forall (stored_artwork_on_disk w') (tracks snap)).
Proof.
  split.
  - intros fuel self playlist_url w path w' H.
    apply spotify_index_playlist_Ok in H
      as (pid & raw & out & meta & stats & w1 & w2 & w3 & _ & _ & Hp & _ & ->).
    eexists. split; [apply lookup_insert_eq|]. simpl.
    apply spotify_process_all_artwork in Hp; [|constructor].
    unfold Spotify.track_records, Spotify.convert_records.
    apply Forall_fmap. eapply Forall_impl.
    + apply (to_dict_records_artwork env (stored path
               (SpotifySnapshot
                  {| playlist_metadata := meta;
                     tracks := Spotify.track_records env out;
                     summary := stats |}) w3)).
      eapply Forall_impl; [exact Hp|]. intros t.
      apply artwork_on_disk_mono, stored_paths_kept.
    + intros r. apply stored_artwork_convert.
  - intros self playlist_url w path w' H.
    apply apple_index_playlist_Ok in H
      as (pid & details & raw & out & meta & stats & w1 & w2 & w3 & w4
          & _ & _ & _ & Hp & _ & _ & ->).
    eexists. split; [apply lookup_insert_eq|]. simpl.
    apply spotify_process_all_artwork in Hp || apply apple_process_all_artwork in Hp;
      [|constructor].
    apply to_dict_records_artwork.
    eapply Forall_impl; [exact Hp|]. intros t.
    apply artwork_on_disk_mono, stored_paths_kept.
Qed.

Lemma snapshot_artwork_exists_witness :
  let env :=
    ascii_env (mock_api sample_details
                 [[sample_item_with_art "a" "https://i.scdn.co/image/1";
                   sample_item "b" "track"]] 9 [x89; x50]) in
  let self := Spotify.init (lit "token") in
  let url := lit "https://open.spotify.com/playlist/PL1" in
  let path := lit "playlist_data/spotify_playlist_PL1_20250101_000000.json" in
  let w' := (Spotify.index_playlist env 5 self url empty_world).2 in
  exists snap,
    files w' !! path = Some (SpotifySnapshot snap)
    /\ Forall (stored_artwork_on_disk w') (tracks snap).
Proof.
  intros env self url path w'.
  apply (proj1 (snapshot_artwork_exists env) 5%nat self url empty_world path w').
  vm_compute. reflexivity.
Defined.

Example spotify_artwork_run :
  let env :=
    ascii_env (mock_api sample_details
                 [[sample_item_with_art "a" "https://i.scdn.co/image/1";
                   sample_item "b" "track"]] 9 [x89; x50]) in
  let out :=
    Spotify.index_playlist env 5 (Spotify.init (lit "token"))
      (lit "https://open.spotify.com/playlist/PL1") empty_world in
  files out.2 !! lit "playlist_images/001_ACDC_a.jpg" = Some (Image [x89; x50])
  /\ exists snap,
       files out.2 !! lit "playlist_data/spotify_playlist_PL1_20250101_000000.json"
         = Some (SpotifySnapshot snap)
       /\ record_lookup (lit "artwork_local_path") <$> tracks snap
          = [Some (Plain (JStr (lit "playlist_images/001_ACDC_a.jpg"))); Some (Plain JNull)].
Proof. vm_compute. split; [done|]. eexists. split; reflexivity. Qed.

(** ** The requests of the track lister, whatever the server does *)

Lemma lister_requests env self url : forall fuel (k : nat) acc w,
  exists n : nat,
    (n <= fuel)%nat
    /\ files (Spotify.get_playlist_tracks_loop env fuel self url (100 * Z.of_nat k) acc w).2
       = files w
    /\ net_log (Spotify.get_playlist_tracks_loop env fuel self url (100 * Z.of_nat k) acc w).2
       = net_log w
         ++ ((fun j : nat => tracks_request self url (100 * Z.of_nat (k + j))) <$> seq 0 n).
Proof.
  induction fuel as [|fuel IH]; intros k acc w.
  - exists 0%nat. simpl. split; [lia|]. split; [done|]. by rewrite app_nil_r.
  - assert (forall r : res (option (list json)),
               exists n : nat,
                 (n <= S fuel)%nat
                 /\ files (r, logged (tracks_request self url (100 * Z.of_nat k)) w).2 = files w
                 /\ net_log (r, logged (tracks_request self url (100 * Z.of_nat k)) w).2
                    = net_log w
                      ++ ((fun j : nat => tracks_request self url (100 * Z.of_nat (k + j)))
                            <$> seq 0 n)) as Hstop.
    { intros r. exists 1%nat. split; [lia|]. split; [done|]. simpl.
      by rewrite Nat.add_0_r. }
    simpl Spotify.get_playlist_tracks_loop.
    rewrite bind_unfold, requests_get_str.
    fold (tracks_request self url (100 * Z.of_nat k)).
    destruct (net env (net_log w) (tracks_request self url (100 * Z.of_nat k))) as [|r];
      [apply Hstop|].
    destruct (raises_for_status r); [apply Hstop|].
    unfold bind, lift.
    destruct (py_get (body_json r) (lit "items") (JList [])) as [tracks|e]; [|apply Hstop].
    destruct (negb (truthy tracks)); [apply Hstop|].
    destruct (py_iter tracks) as [items|e]; [|apply Hstop].
    destruct (py_get (body_json r) (lit "next") JNull) as [next|e]; [|apply Hstop].
    destruct (is_none next); [apply Hstop|].
    replace (100 * Z.of_nat k + 100) with (100 * Z.of_nat (S k)) by lia.
    destruct (IH (S k) (acc ++ items) (logged (tracks_request self url (100 * Z.of_nat k)) w))
      as (n & Hn & Hf & Hl).
    exists (S n). split; [lia|]. split; [by rewrite Hf|].
    rewrite Hl. simpl net_log. rewrite <- app_assoc. f_equal.
    simpl. rewrite Nat.add_0_r. f_equal.
    rewrite <- seq_shift, map_map. apply map_ext. intros j. f_equal. lia.
Qed.

(** Whatever the server answers, and whether the lister returns, raises
    or runs out of fuel, it writes no file and its requests are those of
    the pages 0, 1, ..., n-1 in order, each with limit 100 and offset 100
    times the page number, for some n that is at most the fuel. *)
Theorem get_playlist_tracks_requests (env : Env) (self : Spotify.indexer)
    (playlist_id : list N) (fuel : nat) (w : World) :
  exists n : nat,
    (n <= fuel)%nat
    /\ files (Spotify.get_playlist_tracks env fuel self playlist_id w).2 = files w
    /\ net_log (Spotify.get_playlist_tracks env fuel self playlist_id w).2
       = net_log w ++ page_requests self (tracks_url self playlist_id) n.
Proof.
  destruct (lister_requests env self (tracks_url self playlist_id) fuel 0 [] w)
    as (n & Hn & Hf & Hl).
  exists n. split; [done|]. split; [exact Hf|]. exact Hl.
Qed.

(** ** What a produced snapshot looks like *)

Section SnapshotShape.
Context (env : Env).

Lemma res_bind_Ok {A B} (c : res A) (k : A -> res B) b :
  res_bind c k = Ok b -> exists a, c = Ok a /\ k a = Ok b.
Proof. destruct c as [a|e]; simpl; [eauto | discriminate]. Qed.



Lemma data_frame_Ok data df : data_frame env data = Ok df -> df = mk_frame data.
Proof.
  unfold data_frame. destruct (has_giant data); [destruct (frame_error env data)|];
    by intros [= <-].
Qed.




End SnapshotShape.

Ltac res_inv H :=
  let a := fresh "r" in
  let Hc := fresh "Hr" in
  apply res_bind_Ok in H as (a & Hc & H); cbv beta zeta in H.

Section SnapshotFacts.
Context (env : Env).



End SnapshotFacts.



(** ** Conversion before serialization *)

Lemma convert_json_id (obj : json) : Spotify.convert_to_json_serializable obj = obj.
Proof.
  revert obj. fix IH 1. intros [| | | | l | d]; simpl; try reflexivity.
  - f_equal. revert l. fix IHl 1. intros [|x l]; simpl; [reflexivity|].
    by rewrite IH, IHl.
  - f_equal. revert d. fix IHd 1. intros [|[k v] d]; simpl; [reflexivity|].
    by rewrite IH, IHd.
Qed.

(** [convert_to_json_serializable] returns plain JSON data unchanged, at
    every depth, and so the records of the data frame: what
    [df.to_dict('records')] returned is what the Spotify snapshot holds. *)
Theorem convert_to_json_serializable_id (env : Env) :
  (forall obj, Spotify.convert_to_json_serializable obj = obj)
  /\ (forall records, Spotify.convert_records records = records)
  /\ (forall processed_tracks,
      Spotify.track_records env processed_tracks
      = to_dict_records env (mk_frame processed_tracks)).
Proof.
  assert (forall records, Spotify.convert_records records = records) as Hr.
  { intros records. unfold Spotify.convert_records.
    induction records as [|r records IH]; simpl; [done|]. f_equal; [|exact IH].
    induction r as [|[k v] r IHr]; simpl; [done|]. f_equal; [|exact IHr].
    destruct v; simpl; [|done|done]. by rewrite convert_json_id. }
  split; [exact convert_json_id|]. split; [exact Hr|].
  intros processed_tracks. apply Hr.
Qed.

(** ** Artwork file names stay inside the image directory *)

Section PlainNames.
Context (env : Env).

Lemma filename_char_plain c : filename_char_ok env c = true -> plain_char c = true.
Proof.
  unfold filename_char_ok, plain_char, isalnum. intros H.
  destruct (c =? ch "/")%N eqn:E1.
  { apply N.eqb_eq in E1. subst c. discriminate H. }
  destruct (c =? ch "\")%N eqn:E2.
  { apply N.eqb_eq in E2. subst c. discriminate H. }
  destruct (c =? 0)%N eqn:E3; [|reflexivity].
  apply N.eqb_eq in E3. subst c. discriminate H.
Qed.

Lemma collapse_runs_word s b :
  Forall (fun c => (isword env c || isspace env c || (c =? ch "-")%N) = true) s ->
  Forall (fun c => isword env c = true) (Spotify.collapse_runs env b s).
Proof.
  revert b. induction s as [|c s IH]; intros b H; simpl; [constructor|].
  inversion H as [|? ? Hc Hs]; subst.
  destruct ((c =? ch "-")%N || isspace env c) eqn:E.
  - destruct b; [by apply IH|]. constructor; [|by apply IH].
    unfold isword. apply orb_true_r.
  - constructor; [|by apply IH].
    apply orb_false_iff in E as [E1 E2]. rewrite E1, E2 in Hc.
    by rewrite !orb_false_r in Hc.
Qed.

End PlainNames.

(** No artwork file name contains a slash, a backslash or a null
    character, whatever the artist and the title are, so the file it names
    lies directly in the image directory; and the stem of a Spotify name
    is made of word characters only (no space, no hyphen). *)
Theorem artwork_filename_plain (env : Env) (track_index : Z) (artist title : list N) :
  Forall (fun c => plain_char c = true)
    (Spotify.artwork_filename env track_index artist title)
  /\ Forall (fun c => plain_char c = true)
       (Apple.artwork_filename env track_index artist title)
  /\ exists stem,
       Spotify.artwork_filename env track_index artist title = stem ++ lit ".jpg"
       /\ Forall (fun c => isword env c = true) stem.
Proof.
  assert (Forall (fun c => plain_char c = true) (lit ".jpg")) as Hext
    by (repeat constructor).
  split; [|split].
  - apply Forall_app. split; [|exact Hext].
    apply Forall_take.
    eapply Forall_impl; [|intros c; apply (filename_char_plain env)].
    apply collapse_runs_ok. unfold Spotify.strip_special.
    apply Forall_forall. intros c Hc. apply list_elem_of_In, filter_In in Hc. tauto.
  - apply Forall_app. split; [|exact Hext].
    apply Forall_take.
    eapply Forall_impl; [|intros c; apply (filename_char_plain env)].
    apply replace_Forall; [repeat constructor|].
    apply rstrip_Forall. apply Forall_forall. intros c Hc.
    apply list_elem_of_In, filter_In in Hc. unfold filename_char_ok. tauto.
  - eexists. split; [reflexivity|].
    apply Forall_take, collapse_runs_word. unfold Spotify.strip_special.
    apply Forall_forall. intros c Hc. apply list_elem_of_In, filter_In in Hc. tauto.
Qed.
(** ** Apple Music playlists whose durations are all integers *)

Section IntegerDurations.
Context (env : Env).

Lemma apple_process_track_duration self item idx w info w' :
  Apple.process_track env self item idx w = (Ok info, w') ->
  exists d,
    Apple.attribute item (lit "durationInMillis") JNull = Ok d
    /\ raw_cell (lit "duration_ms") info = Some d.
Proof.
  unfold Apple.process_track. intros H.
  do 5 lift_inv H.
  apply bind_Ok in H as (d & w1 & Hd & H). apply lift_Ok in Hd as [Hd ->].
  cbv beta zeta in H. exists d. split; [exact Hd|].
  repeat (bind_inv H; clear Hc).
  case_if H; [|by apply ret_Ok in H as [<- _]].
  bind_inv H. clear Hc.
  case_if H; [|by apply ret_Ok in H as [<- _]].
  bind_inv H. clear Hc.
  case_if H; by apply ret_Ok in H as [<- _].
Qed.

Lemma apple_process_all_duration self items : forall idx acc w out w',
  Apple.process_all env self items idx acc w = (Ok out, w') ->
  Forall has_int64_duration items ->
  Forall (fun c => exists n, c = Some (JNum n) /\ fits_int64 n = true)
    (raw_cell (lit "duration_ms") <$> acc) ->
  Forall (fun c => exists n, c = Some (JNum n) /\ fits_int64 n = true)
    (raw_cell (lit "duration_ms") <$> out).
Proof.
  induction items as [|item items IH]; intros idx acc w out w' H Hall Hacc; simpl in H.
  - by apply ret_Ok in H as [<- _].
  - lift_inv H. bind_inv H. inversion Hall as [|? ? (n & Hn & Hfit) Hrest]; subst.
    eapply IH; [exact H | exact Hrest |].
    rewrite fmap_app. apply Forall_app. split; [exact Hacc|].
    apply apple_process_track_duration in Hc0 as (d & Hd & Hraw).
    rewrite Hn in Hd. injection Hd as <-. simpl. constructor; [|constructor].
    rewrite Hraw. by exists n.
Qed.

Lemma dtype_of_int64 col :
  Forall (fun c => exists n, c = Some (JNum n) /\ fits_int64 n = true) col ->
  col <> [] -> dtype_of col = DInt64.
Proof.
  intros Hall Hne.
  assert (Forall (fun c => is_int c = true) col) as Hint.
  { eapply Forall_impl; [exact Hall|]. by intros c (n & -> & _). }
  unfold dtype_of.
  rewrite (existsb_none is_nested is_int), (existsb_none is_text is_int),
    (existsb_none is_boolean is_int), (existsb_none is_na is_int);
    try done; try (by intros [[]|]).
  destruct col as [|c col]; [done|]. inversion Hint as [|? ? Hc ?]; subst.
  simpl existsb. rewrite Hc. simpl orb. cbv iota.
  replace (forallb fits_int64 (ints (c :: col))) with true; [done|].
  symmetry. apply forallb_forall. intros n Hn. apply list_elem_of_In in Hn.
  unfold ints in Hn. apply list_elem_of_omap in Hn as (x & Hx & Hxn).
  rewrite Forall_forall in Hall. destruct (Hall x Hx) as (m & -> & Hfit).
  simpl in Hxn. by injection Hxn as <-.
Qed.

Lemma column_mk_frame data k col :
  column (mk_frame data) k = Ok col -> col = raw_cell k <$> data.
Proof. unfold column. destruct (bool_decide _); [|done]. by intros [= <-]. Qed.

Lemma apple_summarize_total out stats :
  Apple.summarize env out = Ok stats ->
  series_sum env (raw_cell (lit "duration_ms") <$> out)
  = Ok (AppleDoc.total_duration_ms stats)
  /\ out <> [].
Proof.
  intros H. split.
  2: { intros ->. unfold Apple.summarize in H. discriminate H. }
  unfold Apple.summarize in H. cbv zeta in H.
  res_inv H. apply data_frame_Ok in Hr. subst.
  res_inv H. apply column_mk_frame in Hr. subst.
  repeat res_inv H. injection H as <-. simpl. done.
Qed.

End IntegerDurations.

(** A run of the Apple Music indexer returns the path of a snapshot only
    if some track of the playlist has no duration that is an integer of at
    most 64 bits.  When every track has one, as the API documents, pandas
    holds the durations as [int64], their sum is a [numpy.int64], and
    [json.dump] refuses it: no such run returns. *)
Theorem apple_snapshot_needs_odd_duration (env : Env) (self : Apple.indexer)
    (playlist_url : list N) (w : World) (path : list N) (w' : World) :
  Apple.index_playlist env self playlist_url w = (Ok (JStr path), w') ->
  exists playlist_id details raw w1 w2,
    Apple.extract_playlist_id playlist_url = Some playlist_id
    /\ Apple.get_playlist_details env self playlist_id w1 = (Ok details, w2)
    /\ embedded_tracks details = Ok raw
    /\ ~ Forall has_int64_duration raw.
Proof.
  intros H.
  apply apple_index_playlist_Ok in H
    as (pid & details & raw & out & meta & stats & w1 & w2 & w3 & w4
        & He & Hd & Hr & Hp & Hs & Hnp & _).
  exists pid, details, raw, w1, w2. split; [done|]. split; [done|]. split; [done|].
  intros Hall. apply apple_summarize_total in Hs as [Hsum Hne].
  eapply apple_process_all_duration in Hp; [|exact Hall|constructor].
  unfold series_sum in Hsum. rewrite dtype_of_int64 in Hsum; [|exact Hp|].
  - injection Hsum as Hsum. by eapply Hnp.
  - intros Hnil. apply fmap_nil_inv in Hnil. done.
Qed.

Lemma apple_snapshot_needs_odd_duration_witness :
  let env :=
    ascii_env (mock_api
                 (apple_details_of [apple_sample_track "x";
                                    apple_track_without_duration "y"]) [] 9 []) in
  let self := Apple.init (lit "token") (lit "us") in
  let url := lit "https://music.apple.com/us/playlist/mix/pl.u-1" in
  exists raw, ~ Forall has_int64_duration raw.
Proof.
  intros env self url.
  destruct (apple_snapshot_needs_odd_duration env self url empty_world
              (lit "playlist_data/playlist_pl.u-1_20250101_000000.json")
              (Apple.index_playlist env self url empty_world).2)
    as (pid & details & raw & w1 & w2 & _ & _ & _ & H).
  - vm_compute. reflexivity.
  - exists raw. exact H.
Defined.
